(** * Heartbeat monitor: a shallow embedding of [main.py]

    The development follows the class [HeartbeatMonitor] of [main.py]:
    its constructor, [parse_timestamp], [validate_event],
    [sort_events_by_service], [detect_missed_heartbeats] and
    [monitor_heartbeats].  Of [web_server.py] it follows the route
    [process_heartbeats] and the pagination that it shares with
    [get_alerts], for integer parameters and an array of events.

    Modelling conventions.
    - A Python [int] is a [Z].  An aware [datetime] (always normalised to
      UTC by [parse_timestamp]) is the number of microseconds since the
      epoch, a [Z]; a [timedelta] is a number of microseconds.  The range
      of [datetime] (years 1 to 9999) is not modelled.
    - A Python [float] is the rational it denotes ([Q]); rounding to
      binary64 is not modelled.  The constructor rejects every tolerance
      that is not between 0 and 1, so no infinity or NaN is ever stored.
    - A [str] is a [string]; JSON-like values are [PyVal]; a [dict] is an
      association list, kept in insertion order as Python keeps it.
    - [datetime.now] is one value [now] given to the call.
    - A [while] loop takes fuel and returns [None] when it runs out.
    - The detector reads the timestamp of every event it is given; on an
      event without a timestamp that parses the source raises.  The
      statements on the detector are about lists of events that have one
      ([has_timestamp]), as every list from [sort_events_by_service] is. *)

From Stdlib Require Import ZArith QArith Qabs Lia Lqa List String Ascii Bool.
From Stdlib Require Import Sorted Permutation Arith.
Import ListNotations.
Open Scope Z_scope.

(** ** Python values *)

#[warnings="-register-all"]
Inductive PyVal : Type :=
| PyNone
| PyBool (b : bool)
| PyInt (n : Z)
| PyFloat (x : Q)
| PyStr (s : string)
| PyList (items : list PyVal)
| PyDict (items : list (string * PyVal)).

(** [key in d] and [d[key]] on a dict: the binding of the key, the first
    one where the list repeats a key. *)
Fixpoint dict_get (key : string) (d : list (string * PyVal)) : option PyVal :=
  match d with
  | [] => None
  | (k, v) :: rest => if String.eqb k key then Some v else dict_get key rest
  end.

(** [str.isspace] on the characters of the model: tab to carriage return,
    the four separators 28 to 31, and the space. *)
Definition is_space (c : ascii) : bool :=
  let n := nat_of_ascii c in
  (((9 <=? n) && (n <=? 13)) || ((28 <=? n) && (n <=? 32)))%nat.

Fixpoint lstrip (s : string) : string :=
  match s with
  | EmptyString => EmptyString
  | String c rest => if is_space c then lstrip rest else s
  end.

Fixpoint rstrip (s : string) : string :=
  match s with
  | EmptyString => EmptyString
  | String c rest =>
      match rstrip rest with
      | EmptyString => if is_space c then EmptyString else String c EmptyString
      | kept => String c kept
      end
  end.

(** [s.strip()] *)
Definition strip (s : string) : string := rstrip (lstrip s).

(** Truth value of a [str]: the empty string is false. *)
Definition str_truthy (s : string) : bool :=
  match s with EmptyString => false | _ => true end.

(** ** Time *)

Definition us_per_second : Z := 1000000.

(** [timedelta(seconds=n)] and [timedelta(hours=n)] *)
Definition timedelta_seconds (n : Z) : Z := n * us_per_second.
Definition timedelta_hours (n : Z) : Z := n * 3600 * us_per_second.

(** [td.total_seconds()] *)
Definition total_seconds (td : Z) : Q := (inject_Z td / inject_Z us_per_second)%Q.

Definition Qltb (x y : Q) : bool := negb (Qle_bool y x).

(** [dt.strftime("%Y-%m-%dT%H:%M:%SZ")]: the text drops the microseconds.
    It is fixed-width, so comparing two such texts compares the whole
    seconds they denote; the model keeps the whole seconds. *)
Definition strftime_seconds (dt : Z) : Z := dt / us_per_second.

(** ** The monitor and its constructor *)

Record HeartbeatMonitor : Type := {
  interval_seconds : Z;
  allowed_misses : Z;
  tolerance : Q;
  future_limit : Z;
  gap_limit : Z;
  tolerance_seconds : Q
}.

Inductive Raises (A : Type) : Type :=
| Returns (a : A)
| ValueError (msg : string).
Arguments Returns {A} a.
Arguments ValueError {A} msg.

(** [HeartbeatMonitor.__init__] *)
Definition init (interval_seconds allowed_misses : Z) (tolerance : Q)
    (future_limit gap_limit : Z) : Raises HeartbeatMonitor :=
  if interval_seconds <=? 0 then
    ValueError "interval_seconds must be positive"
  else if interval_seconds >? 3600 then
    ValueError "interval_seconds cannot exceed 3600 seconds"
  else if allowed_misses <=? 0 then
    ValueError "allowed_misses must be positive"
  else if allowed_misses >? 10 then
    ValueError "allowed_misses cannot exceed 10"
  else if negb (Qle_bool 0 tolerance && Qle_bool tolerance 1) then
    ValueError "tolerance must be between 0.0 and 1.0"
  else if future_limit <? 0 then
    ValueError "future_limit must be non-negative"
  else if gap_limit <=? 0 then
    ValueError "gap_limit must be positive"
  else
    Returns {| interval_seconds := interval_seconds;
               allowed_misses := allowed_misses;
               tolerance := tolerance;
               future_limit := future_limit;
               gap_limit := gap_limit;
               tolerance_seconds := (inject_Z interval_seconds * tolerance)%Q |}.

(** The defaults of the constructor: [tolerance=0.1], [future_limit=300],
    [gap_limit=10]. *)
Definition init_default (interval_seconds allowed_misses : Z) : Raises HeartbeatMonitor :=
  init interval_seconds allowed_misses (1 # 10)%Q 300 10.

(** The ranges of the configuration fields. *)
Definition in_range (interval_seconds allowed_misses : Z) (tolerance : Q)
    (future_limit gap_limit : Z) : Prop :=
  1 <= interval_seconds <= 3600 /\ 1 <= allowed_misses <= 10 /\
  (0 <= tolerance <= 1)%Q /\ 0 <= future_limit /\ 1 <= gap_limit.

(** A monitor that the constructor can have built. *)
Definition valid (self : HeartbeatMonitor) : Prop :=
  in_range (interval_seconds self) (allowed_misses self) (tolerance self)
           (future_limit self) (gap_limit self) /\
  tolerance_seconds self = (inject_Z (interval_seconds self) * tolerance self)%Q.

(** The same monitor with another [future_limit]. *)
Definition with_future_limit (self : HeartbeatMonitor) (fl : Z) : HeartbeatMonitor :=
  {| interval_seconds := interval_seconds self;
     allowed_misses := allowed_misses self;
     tolerance := tolerance self;
     future_limit := fl;
     gap_limit := gap_limit self;
     tolerance_seconds := tolerance_seconds self |}.

(** ** State of one run of the detector *)

Record DetectorState : Type := {
  current_expected : Z;
  consecutive_misses : Z;
  event_index : nat;
  alerts : list Z
}.

(** The branch an iteration of the main loop of the detector takes. *)
Inductive Branch : Type := Resynchronise | ScanSlot.

(** An alert record of [monitor_heartbeats]. *)
Record Alert : Type := {
  service : string;
  alert_at : Z
}.

(** ** Sorting as [list.sort(key=...)] does: stable, ascending by key *)

Section SortByKey.
Context {A : Type} (key : A -> Z).

Fixpoint insert_by (x : A) (l : list A) : list A :=
  match l with
  | [] => [x]
  | y :: rest => if key x <=? key y then x :: l else y :: insert_by x rest
  end.

(** The result of a stable sort is determined by the list and the key;
    insertion from the right computes it. *)
Fixpoint sort_by (l : list A) : list A :=
  match l with
  | [] => []
  | x :: rest => insert_by x (sort_by rest)
  end.

(** Ascending by key. *)
Definition key_sorted (l : list A) : Prop :=
  StronglySorted (fun a b => key a <= key b) l.
End SortByKey.

(** ** The timestamps of the examples

    [datetime.fromisoformat] is library code; the examples read the
    timestamps that the repository's tests use. *)

Definition t1000 : Z := 1754301600 * us_per_second.

Definition sample_iso (s : string) : option Z :=
  if String.eqb s "2025-08-04T10:00:00Z" then Some t1000
  else if String.eqb s "2025-08-04T10:01:00Z" then Some (t1000 + timedelta_seconds 60)
  else if String.eqb s "2025-08-04T10:02:00Z" then Some (t1000 + timedelta_seconds 120)
  else if String.eqb s "2025-08-04T10:06:00Z" then Some (t1000 + timedelta_seconds 360)
  else if String.eqb s "2025-08-04T12:00:00Z" then Some (t1000 + timedelta_seconds 7200)
  else None.

Definition heartbeat (name ts : string) : PyVal :=
  PyDict [("service"%string, PyStr name); ("timestamp"%string, PyStr ts)].

(** The monitor [HeartbeatMonitor(60, 3)] of the tests. *)
Definition monitor_60_3 : HeartbeatMonitor :=
  {| interval_seconds := 60; allowed_misses := 3; tolerance := (1 # 10)%Q;
     future_limit := 300; gap_limit := 10;
     tolerance_seconds := (inject_Z 60 * (1 # 10))%Q |}.

(** ** Sample inputs, from the repository's tests *)

(** [test_no_alerts] *)
Definition scenario_b : list PyVal :=
  [heartbeat "api" "2025-08-04T10:00:00Z";
   heartbeat "api" "2025-08-04T10:01:00Z";
   heartbeat "api" "2025-08-04T10:02:00Z"].

(** [test_large_time_gaps] *)
Definition scenario_c : list PyVal :=
  [heartbeat "restart" "2025-08-04T10:00:00Z";
   heartbeat "restart" "2025-08-04T12:00:00Z"].

(** [test_basic_functionality] *)
Definition scenario_a : list PyVal :=
  [heartbeat "email" "2025-08-04T10:00:00Z";
   heartbeat "email" "2025-08-04T10:01:00Z";
   heartbeat "email" "2025-08-04T10:02:00Z";
   heartbeat "email" "2025-08-04T10:06:00Z"].

(** [test_multiple_services] *)
Definition multiple_services : list PyVal :=
  [heartbeat "email" "2025-08-04T10:00:00Z";
   heartbeat "email" "2025-08-04T10:06:00Z";
   heartbeat "api" "2025-08-04T10:00:00Z";
   heartbeat "api" "2025-08-04T10:01:00Z"].

(** [test_malformed_events] *)
Definition malformed_events : list PyVal :=
  [heartbeat "valid" "2025-08-04T10:00:00Z";
   PyDict [("service"%string, PyStr "missing_timestamp")];
   PyDict [("timestamp"%string, PyStr "2025-08-04T10:00:00Z")];
   heartbeat "invalid_timestamp" "not-a-timestamp";
   heartbeat "" "2025-08-04T10:00:00Z";
   PyStr "not a dict";
   PyNone;
   PyList []].

(** [test_duplicate_events] *)
Definition duplicate_events : list PyVal :=
  [heartbeat "duplicate" "2025-08-04T10:00:00Z";
   heartbeat "duplicate" "2025-08-04T10:00:00Z";
   heartbeat "duplicate" "2025-08-04T10:01:00Z";
   heartbeat "duplicate" "2025-08-04T10:01:00Z"].

(** The single event of [test_edge_cases] *)
Definition single_event : PyVal := heartbeat "single" "2025-08-04T10:00:00Z".

(** Two services that fall silent at the same instants; ["b"] comes first
    in the input. *)
Definition tie_events : list PyVal :=
  [heartbeat "b" "2025-08-04T10:00:00Z";
   heartbeat "b" "2025-08-04T10:06:00Z";
   heartbeat "a" "2025-08-04T10:00:00Z";
   heartbeat "a" "2025-08-04T10:06:00Z"].



(** A clock reading long after the sample events, as when the tests run. *)
Definition long_after : Z := t1000 + timedelta_hours 1000.

(** ** Notions used by the statements *)

(** The call [run] returns [r]: every amount of fuel from some amount on
    is enough for its loops, and the result is [r]. *)
Definition terminates_with {A : Type} (run : nat -> option A) (r : A) : Prop :=
  exists n, forall fuel, (n <= fuel)%nat -> run fuel = Some r.



(** The alerts of a run so far are in order below the clock: strictly
    increasing, each at least [step] after [first], none later than the
    clock. *)
Definition alerts_in_order (first step : Z) (st : DetectorState) : Prop :=
  first <= current_expected st /\
  StronglySorted Z.lt (alerts st) /\
  Forall (fun a => first + step <= a <= current_expected st) (alerts st).



(** Instants at least [gap] apart, the first at least [gap] after [lo]. *)
Fixpoint apart (gap lo : Z) (l : list Z) : Prop :=
  match l with
  | [] => True
  | a :: rest => lo + gap <= a /\ apart gap a rest
  end.

(** The clock is at least as many steps past the last alert (past [first]
    when there is none) as there are misses counted. *)
Definition misses_behind (first gap step : Z) (st : DetectorState) : Prop :=
  0 <= consecutive_misses st /\
  apart gap first (alerts st) /\
  last (alerts st) first + consecutive_misses st * step <= current_expected st.

(** Some field of the configuration is outside its range. *)
Definition out_of_range (interval_seconds allowed_misses : Z) (tolerance : Q)
    (future_limit gap_limit : Z) : Prop :=
  ~ 1 <= interval_seconds <= 3600 \/ ~ 1 <= allowed_misses <= 10 \/
  ~ (0 <= tolerance <= 1)%Q \/ future_limit < 0 \/ gap_limit < 1.

(** A branch of the constructor that raises: some field is out of range. *)
Ltac init_raises Hn :=
  split;
  [ split;
    [ intros _;
      first [ left; lia
            | right; left; lia
            | right; right; left; exact Hn
            | right; right; right; left; lia
            | right; right; right; right; lia ]
    | intros _; eexists; reflexivity ]
  | split;
    [ intros (H1 & H2 & H3 & H4 & H5); exfalso; first [ lia | exact (Hn H3) ]
    | intros self Hself; discriminate ] ].

(** ** The [try] block of [parse_timestamp]

    [datetime.fromisoformat] is library code: it is a parameter, giving
    for a text that it accepts the wall-clock reading in microseconds and,
    for an aware value, the offset from UTC in microseconds. *)

(** [s.endswith('Z')] and [s[:-1]] *)
Fixpoint last_char (s : string) : option ascii :=
  match s with
  | EmptyString => None
  | String c EmptyString => Some c
  | String _ rest => last_char rest
  end.

Definition endswith_Z (s : string) : bool :=
  match last_char s with
  | Some c => Ascii.eqb c "Z"
  | None => false
  end.

Fixpoint drop_last (s : string) : string :=
  match s with
  | EmptyString => EmptyString
  | String _ EmptyString => EmptyString
  | String c rest => String c (drop_last rest)
  end.

(** The pieces of the two patterns: [\d{n}], one literal character,
    [(\.\d+)?], [[+-]]; each gives the text left to match. *)
Definition is_digit (c : ascii) : bool :=
  let n := nat_of_ascii c in ((48 <=? n) && (n <=? 57))%nat.

Fixpoint re_digits (n : nat) (s : string) : option string :=
  match n with
  | O => Some s
  | S n' =>
      match s with
      | String c rest => if is_digit c then re_digits n' rest else None
      | EmptyString => None
      end
  end.

Definition re_char (c : ascii) (s : string) : option string :=
  match s with
  | String c' rest => if Ascii.eqb c c' then Some rest else None
  | EmptyString => None
  end.

Fixpoint re_more_digits (s : string) : string :=
  match s with
  | String c rest => if is_digit c then re_more_digits rest else s
  | EmptyString => s
  end.

(** [(\.\d+)?]: with a dot and a digit the group takes all the digits;
    otherwise it matches the empty text. *)
Definition re_fraction (s : string) : option string :=
  match s with
  | String c rest =>
      if Ascii.eqb c "." then
        match re_digits 1 rest with
        | Some rest' => Some (re_more_digits rest')
        | None => Some s
        end
      else Some s
  | EmptyString => Some s
  end.

Definition re_sign (s : string) : option string :=
  match s with
  | String c rest => if Ascii.eqb c "+" || Ascii.eqb c "-" then Some rest else None
  | EmptyString => None
  end.

Definition re_then (m1 m2 : string -> option string) (s : string) : option string :=
  match m1 s with
  | Some rest => m2 rest
  | None => None
  end.

(** [^\d{4}-\d{2}-\d{2}T\d{2}:\d{2}:\d{2}(\.\d+)?], the part the two
    patterns share. *)
Definition re_date_time : string -> option string :=
  re_then (re_digits 4) (re_then (re_char "-") (re_then (re_digits 2)
  (re_then (re_char "-") (re_then (re_digits 2) (re_then (re_char "T")
  (re_then (re_digits 2) (re_then (re_char ":") (re_then (re_digits 2)
  (re_then (re_char ":") (re_then (re_digits 2) re_fraction)))))))))).

(** [$]: the end of the text, or the place before a last line feed. *)
Definition re_end (s : string) : bool :=
  match s with
  | EmptyString => true
  | String c EmptyString => Ascii.eqb c "010"
  | _ => false
  end.

(** [re.match] with the pattern that ends in [[+-]\d{2}:\d{2}$] *)
Definition re_match_offset (s : string) : bool :=
  match re_then re_date_time
          (re_then re_sign (re_then (re_digits 2) (re_then (re_char ":") (re_digits 2)))) s
  with
  | Some rest => re_end rest
  | None => false
  end.

(** [re.match] with the pattern of a date-time without zone *)
Definition re_match_naive (s : string) : bool :=
  match re_date_time s with
  | Some rest => re_end rest
  | None => false
  end.

(** The end of the block: a value without zone is read as UTC, an aware
    value is moved to UTC. *)
Definition to_utc (dt : option (Z * option Z)) : option Z :=
  match dt with
  | None => None
  | Some (wall, None) => Some wall
  | Some (wall, Some utcoffset) => Some (wall - utcoffset)
  end.

(** The block itself, on the stripped text; [None] is the [except]. *)
Definition parse_try_block (fromisoformat : string -> option (Z * option Z))
    (timestamp_str : string) : option Z :=
  to_utc
    (if endswith_Z timestamp_str then
       fromisoformat (drop_last timestamp_str ++ "+00:00")%string
     else if re_match_offset timestamp_str then
       fromisoformat timestamp_str
     else if re_match_naive timestamp_str then
       fromisoformat (timestamp_str ++ "+00:00")%string
     else
       fromisoformat timestamp_str).

(** The characters that the shared part of the patterns can take. *)
Definition date_time_char (c : ascii) : bool :=
  is_digit c || Ascii.eqb c "-" || Ascii.eqb c "T" || Ascii.eqb c ":" || Ascii.eqb c ".".

Fixpoint string_forallb (p : ascii -> bool) (s : string) : bool :=
  match s with
  | EmptyString => true
  | String c rest => p c && string_forallb p rest
  end.

(** A matcher takes a prefix made of date-time characters. *)
Definition takes_date_time (m : string -> option string) : Prop :=
  forall s rest, m s = Some rest ->
    exists taken, s = (taken ++ rest)%string /\ string_forallb date_time_char taken = true.

(** A [fromisoformat] for the examples: it reads one text, as an aware
    value at UTC. *)
Definition sample_fromisoformat (s : string) : option (Z * option Z) :=
  if String.eqb s "2025-08-04T10:00:00+00:00" then Some (t1000, Some 0) else None.

(** ** Pagination, as in [web_server.py] *)

(** An index of a slice, brought into [0..len] as Python does. *)
Definition slice_index (len i : Z) : Z :=
  if i <? 0 then Z.max 0 (i + len) else Z.min i len.

(** [l[start:stop]] *)
Definition py_slice {A : Type} (l : list A) (start stop : Z) : list A :=
  let len := Z.of_nat (List.length l) in
  let lo := slice_index len start in
  let hi := slice_index len stop in
  firstn (Z.to_nat (hi - lo)) (skipn (Z.to_nat lo) l).

Record Pagination : Type := {
  page : Z;
  pageSize : Z;
  totalAlerts : Z;
  totalPages : Z;
  hasNext : bool;
  hasPrevious : bool
}.

(** The pagination of [process_heartbeats] and of [get_alerts], past the
    guard [page < 1 or page_size < 1]: the alerts of the page and the
    ['pagination'] entry of the response. *)
Definition paginate {A : Type} (all_alerts : list A) (page page_size : Z)
    : list A * Pagination :=
  let total_alerts := Z.of_nat (List.length all_alerts) in
  let start_idx := (page - 1) * page_size in
  let end_idx := start_idx + page_size in
  let paginated_alerts := py_slice all_alerts start_idx end_idx in
  (paginated_alerts,
   {| page := page;
      pageSize := page_size;
      totalAlerts := total_alerts;
      totalPages := (total_alerts + page_size - 1) / page_size;
      hasNext := end_idx <? total_alerts;
      hasPrevious := page >? 1 |}).

(** The page numbers [1..n]. *)
Definition page_numbers (n : Z) : list Z := map Z.of_nat (seq 1 (Z.to_nat n)).

(** ** The response of [process_heartbeats] *)

(** An entry of ['serviceStats']. *)
Module ServiceStats.
Record t : Type := {
  totalEvents : Z;
  alerts : Z
}.
End ServiceStats.

(** The body of the response with status 200. *)
Module Response.
Record t : Type := {
  alerts : list Alert;
  pagination : Pagination;
  serviceStats : list (string * ServiceStats.t);
  malformedCount : Z;
  totalServices : Z;
  totalEvents : Z
}.
End Response.

(** What the route returns: the body with status 200, or
    [{'error': ...}] with status 400 or 500. *)
Inductive HttpResponse : Type :=
| Status200 (response : Response.t)
| Status400 (error : string)
| Status500 (error : string).

(** [d[key] = value] on a dict in insertion order: the value of an old key
    is replaced in place, a new key goes to the end. *)
Fixpoint dict_set {V : Type} (d : list (string * V)) (key : string) (value : V)
    : list (string * V) :=
  match d with
  | [] => [(key, value)]
  | (k, v) :: rest =>
      if String.eqb k key then (k, value) :: rest
      else (k, v) :: dict_set rest key value
  end.

(** The sum of a field over the entries of ['serviceStats']. *)
Definition stats_sum (field : ServiceStats.t -> Z)
    (service_stats : list (string * ServiceStats.t)) : Z :=
  fold_right (fun entry total => field (snd entry) + total) 0 service_stats.

(** ** The methods of [HeartbeatMonitor] *)

Section Monitor.

(** The [try] block of [parse_timestamp] on the stripped text: the
    dispatch on the form of the text, [datetime.fromisoformat] and the
    normalisation to UTC; [None] when it raises.  It reads nothing but
    the text. *)
Variable iso_to_utc : string -> option Z.

(** [parse_timestamp] *)
Definition parse_timestamp (timestamp_str : PyVal) : option Z :=
  match timestamp_str with
  | PyStr s =>
      if negb (str_truthy (strip s)) then None
      else iso_to_utc (strip s)
  | _ => None
  end.

(** [validate_event], at the clock reading [now] *)
Definition validate_event (self : HeartbeatMonitor) (now : Z) (event : PyVal) : bool :=
  match event with
  | PyDict d =>
      match dict_get "service" d, dict_get "timestamp" d with
      | Some service, Some timestamp_str =>
          match service with
          | PyStr s =>
              if negb (str_truthy (strip s)) then false
              else if (100 <? String.length (strip s))%nat then false
              else
                match parse_timestamp timestamp_str with
                | None => false
                | Some timestamp =>
                    let max_future := now + timedelta_hours 24 in
                    if timestamp >? max_future then false else true
                end
          | _ => false
          end
      | _, _ => false
      end
  | _ => false
  end.

(** [self.parse_timestamp(event['timestamp'])] where the source uses it
    as a [datetime]: on an event that passed [validate_event] the
    timestamp is there and parses, and the default is never taken. *)
Definition event_time (event : PyVal) : Z :=
  match event with
  | PyDict d =>
      match dict_get "timestamp" d with
      | Some timestamp_str =>
          match parse_timestamp timestamp_str with
          | Some t => t
          | None => 0
          end
      | None => 0
      end
  | _ => 0
  end.

(** The event is a dict with a timestamp that parses: where it is not,
    the source raises instead of returning an instant.  The events of a
    timeline are of this kind. *)
Definition has_timestamp (event : PyVal) : bool :=
  match event with
  | PyDict d =>
      match dict_get "timestamp" d with
      | Some timestamp_str =>
          match parse_timestamp timestamp_str with
          | Some _ => true
          | None => false
          end
      | None => false
      end
  | _ => false
  end.

(** [event['service'].strip()], on an event that passed [validate_event] *)
Definition service_name_of (event : PyVal) : string :=
  match event with
  | PyDict d =>
      match dict_get "service" d with
      | Some (PyStr s) => strip s
      | _ => EmptyString
      end
  | _ => EmptyString
  end.

(** [services[service_name].append(event)] on the [defaultdict(list)] *)
Fixpoint services_append (services : list (string * list PyVal))
    (service_name : string) (event : PyVal) : list (string * list PyVal) :=
  match services with
  | [] => [(service_name, [event])]
  | (k, evs) :: rest =>
      if String.eqb k service_name then (k, evs ++ [event]) :: rest
      else (k, evs) :: services_append rest service_name event
  end.

(** The first loop of [sort_events_by_service] *)
Definition group_events (self : HeartbeatMonitor) (now : Z) (events : list PyVal)
    (services : list (string * list PyVal)) : list (string * list PyVal) :=
  fold_left
    (fun services event =>
       if negb (validate_event self now event) then services
       else services_append services (service_name_of event) event)
    events services.

(** The removal of duplicates: [seen_timestamps] holds the timestamps
    already kept ([isoformat] of a UTC instant determines the instant). *)
Fixpoint unique_events (seen_timestamps : list Z) (events : list PyVal) : list PyVal :=
  match events with
  | [] => []
  | event :: rest =>
      let timestamp := event_time event in
      if existsb (Z.eqb timestamp) seen_timestamps then unique_events seen_timestamps rest
      else event :: unique_events (timestamp :: seen_timestamps) rest
  end.

(** [sort_events_by_service] *)
Definition sort_events_by_service (self : HeartbeatMonitor) (now : Z)
    (events : list PyVal) : list (string * list PyVal) :=
  map (fun entry : string * list PyVal =>
         (fst entry, unique_events [] (sort_by event_time (snd entry))))
      (group_events self now events []).

(** [self.parse_timestamp(service_events[i]['timestamp'])] *)
Definition timestamp_at (service_events : list PyVal) (i : nat) : Z :=
  event_time (nth i service_events PyNone).

(** The guard [gap_seconds > max_gap] of the main loop, at the value of
    [current_expected] on entry to an iteration. *)
Definition large_gap (self : HeartbeatMonitor) (current_expected : Z) : bool :=
  let next_expected := current_expected + timedelta_seconds (interval_seconds self) in
  let gap_seconds := total_seconds (next_expected - current_expected) in
  let max_gap := interval_seconds self * gap_limit self in
  Qltb (inject_Z max_gap) gap_seconds.

(** Which branch an iteration takes: the body under the two nested
    [if]s ending in [continue], or the rest of the iteration. *)
Definition branch_of (self : HeartbeatMonitor) (service_events : list PyVal)
    (st : DetectorState) : Branch :=
  if large_gap self (current_expected st) then
    if (event_index st <? List.length service_events)%nat then Resynchronise
    else ScanSlot
  else ScanSlot.

(** The body of the large-gap branch. *)
Definition resynchronise (service_events : list PyVal) (st : DetectorState)
    : DetectorState :=
  {| current_expected := timestamp_at service_events (event_index st);
     consecutive_misses := 0;
     event_index := S (event_index st);
     alerts := alerts st |}.

(** The inner [while event_index < len(service_events)]; the boolean is
    [found_heartbeat]. *)
Fixpoint scan_slot (fuel : nat) (self : HeartbeatMonitor) (service_events : list PyVal)
    (st : DetectorState) : option (bool * DetectorState) :=
  if (event_index st <? List.length service_events)%nat then
    match fuel with
    | O => None
    | S fuel' =>
        let event_time := timestamp_at service_events (event_index st) in
        let time_diff := total_seconds (event_time - current_expected st) in
        if Qle_bool (Qabs time_diff) (tolerance_seconds self) then
          Some (true, {| current_expected := event_time;
                         consecutive_misses := 0;
                         event_index := S (event_index st);
                         alerts := alerts st |})
        else if Qltb (tolerance_seconds self) time_diff then
          Some (false, st)
        else
          scan_slot fuel' self service_events
            {| current_expected := current_expected st;
               consecutive_misses := consecutive_misses st;
               event_index := S (event_index st);
               alerts := alerts st |}
    end
  else Some (false, st).

(** Counting one miss: [consecutive_misses += 1], and at the threshold
    an alert at [current_expected] and the counter back to 0. *)
Definition count_miss (self : HeartbeatMonitor) (st : DetectorState) : DetectorState :=
  let misses := consecutive_misses st + 1 in
  if misses >=? allowed_misses self then
    {| current_expected := current_expected st;
       consecutive_misses := 0;
       event_index := event_index st;
       alerts := alerts st ++ [current_expected st] |}
  else
    {| current_expected := current_expected st;
       consecutive_misses := misses;
       event_index := event_index st;
       alerts := alerts st |}.

(** The trailing [while consecutive_misses < self.allowed_misses] *)
Fixpoint extrapolate (fuel : nat) (self : HeartbeatMonitor) (now : Z)
    (st : DetectorState) : option DetectorState :=
  if consecutive_misses st <? allowed_misses self then
    match fuel with
    | O => None
    | S fuel' =>
        let advanced :=
          {| current_expected :=
               current_expected st + timedelta_seconds (interval_seconds self);
             consecutive_misses := consecutive_misses st;
             event_index := event_index st;
             alerts := alerts st |} in
        let time_since_expected := total_seconds (now - current_expected advanced) in
        if Qltb (tolerance_seconds self) time_since_expected then
          extrapolate fuel' self now (count_miss self advanced)
        else Some advanced
    end
  else Some st.

(** An iteration of the main loop past the large-gap branch; the boolean
    says that the iteration ended in [break]. *)
Definition slot_step (fuel : nat) (self : HeartbeatMonitor) (now : Z)
    (service_events : list PyVal) (st : DetectorState)
    : option (DetectorState * bool) :=
  let next_expected :=
    current_expected st + timedelta_seconds (interval_seconds self) in
  match scan_slot fuel self service_events
          {| current_expected := next_expected;
             consecutive_misses := consecutive_misses st;
             event_index := event_index st;
             alerts := alerts st |} with
  | None => None
  | Some (found_heartbeat, scanned) =>
      let counted := if found_heartbeat then scanned else count_miss self scanned in
      if (List.length service_events <=? event_index counted)%nat then
        let last_event_time := event_time (last service_events PyNone) in
        let time_since_last := total_seconds (now - last_event_time) in
        if Qltb time_since_last (inject_Z (interval_seconds self * gap_limit self)) then
          match extrapolate fuel self now counted with
          | None => None
          | Some final => Some (final, true)
          end
        else Some (counted, true)
      else Some (counted, false)
  end.

(** The main [while event_index <= len(service_events)] *)
Fixpoint main_loop (fuel : nat) (self : HeartbeatMonitor) (now : Z)
    (service_events : list PyVal) (st : DetectorState) : option (list Z) :=
  if (event_index st <=? List.length service_events)%nat then
    match fuel with
    | O => None
    | S fuel' =>
        match branch_of self service_events st with
        | Resynchronise =>
            main_loop fuel' self now service_events (resynchronise service_events st)
        | ScanSlot =>
            match slot_step fuel self now service_events st with
            | None => None
            | Some (st', true) => Some (alerts st')
            | Some (st', false) => main_loop fuel' self now service_events st'
            end
        end
    end
  else Some (alerts st).

(** [detect_missed_heartbeats] *)
Definition detect_missed_heartbeats (fuel : nat) (self : HeartbeatMonitor) (now : Z)
    (service_events : list PyVal) : option (list Z) :=
  match service_events with
  | [] => Some []
  | first :: _ =>
      main_loop fuel self now service_events
        {| current_expected := event_time first;
           consecutive_misses := 0;
           event_index := 1;
           alerts := [] |}
  end.

(** The loop of [monitor_heartbeats] over [services_events.items()] *)
Fixpoint collect_alerts (fuel : nat) (self : HeartbeatMonitor) (now : Z)
    (services_events : list (string * list PyVal)) : option (list Alert) :=
  match services_events with
  | [] => Some []
  | (service_name, service_events) :: rest =>
      match detect_missed_heartbeats fuel self now service_events,
            collect_alerts fuel self now rest with
      | Some alert_times, Some more =>
          Some (map (fun alert_time =>
                       {| service := service_name;
                          alert_at := strftime_seconds alert_time |})
                    alert_times ++ more)
      | _, _ => None
      end
  end.

(** [monitor_heartbeats] *)
Definition monitor_heartbeats (fuel : nat) (self : HeartbeatMonitor) (now : Z)
    (events : PyVal) : option (list Alert) :=
  match events with
  | PyList events =>
      let services_events := sort_events_by_service self now events in
      match collect_alerts fuel self now services_events with
      | None => None
      | Some all_alerts => Some (sort_by alert_at all_alerts)
      end
  | _ => Some []
  end.

(** [services[name]] on the [defaultdict(list)], without creating the key. *)
Fixpoint services_get (name : string) (services : list (string * list PyVal))
    : list PyVal :=
  match services with
  | [] => []
  | (k, evs) :: rest => if String.eqb k name then evs else services_get name rest
  end.

(** The events of a service among [events]: those that pass
    [validate_event] and whose stripped service name is [name]. *)
Definition events_of (self : HeartbeatMonitor) (now : Z) (name : string)
    (events : list PyVal) : list PyVal :=
  filter (fun event => validate_event self now event
                       && String.eqb (service_name_of event) name) events.

(** The structural rules of [validate_event]: a dict with both fields,
    a service that is text, not blank and at most 100 characters once
    stripped, and a timestamp that parses to [timestamp]. *)
Definition well_formed (event : PyVal) (timestamp : Z) : Prop :=
  exists d s timestamp_str,
    event = PyDict d /\
    dict_get "service" d = Some (PyStr s) /\
    dict_get "timestamp" d = Some timestamp_str /\
    str_truthy (strip s) = true /\
    (String.length (strip s) <= 100)%nat /\
    parse_timestamp timestamp_str = Some timestamp.


(** The instant [t] is [k] steps after an event of the timeline, for some
    [k >= least]. *)
Definition on_grid (service_events : list PyVal) (step least t : Z) : Prop :=
  exists e k, In e service_events /\ least <= k /\ t = event_time e + k * step.

(** The service is stale at [now]: the trailing extrapolation does not
    run. *)
Definition stale (self : HeartbeatMonitor) (now : Z) (service_events : list PyVal)
    : Prop :=
  (inject_Z (interval_seconds self * gap_limit self)
     <= total_seconds (now - event_time (last service_events PyNone)))%Q.

(** *** [process_heartbeats] of [web_server.py]

    The route from its guards on, for a request whose [events] is an
    array and whose four parameters are integers.  The clock is read at
    [now_alerts] by [monitor_heartbeats], at [now_stats] by the second
    grouping and the detections of the statistics, and at [now_count] by
    the loop that counts the malformed events. *)

(** The loop that fills [service_stats]. *)
Fixpoint service_stats_loop (fuel : nat) (monitor : HeartbeatMonitor) (now : Z)
    (services_events : list (string * list PyVal))
    (service_stats : list (string * ServiceStats.t))
    : option (list (string * ServiceStats.t)) :=
  match services_events with
  | [] => Some service_stats
  | (service_name, service_events) :: rest =>
      match detect_missed_heartbeats fuel monitor now service_events with
      | None => None
      | Some service_alerts =>
          service_stats_loop fuel monitor now rest
            (dict_set service_stats service_name
               {| ServiceStats.totalEvents := Z.of_nat (List.length service_events);
                  ServiceStats.alerts := Z.of_nat (List.length service_alerts) |})
      end
  end.

(** The loop that counts the malformed events. *)
Definition count_malformed (monitor : HeartbeatMonitor) (now : Z)
    (events : list PyVal) : Z :=
  fold_left (fun malformed_count event =>
               if negb (validate_event monitor now event)
               then malformed_count + 1 else malformed_count)
            events 0.

Definition process_heartbeats (fuel : nat) (now_alerts now_stats now_count : Z)
    (events : list PyVal) (interval allowed_misses page page_size : Z)
    : option HttpResponse :=
  if interval <=? 0 then
    Some (Status400 "Expected interval must be positive")
  else if interval >? 3600 then
    Some (Status400 "Expected interval cannot exceed 3600 seconds")
  else if allowed_misses <=? 0 then
    Some (Status400 "Allowed misses must be positive")
  else if allowed_misses >? 10 then
    Some (Status400 "Allowed misses cannot exceed 10")
  else if (page <? 1) || (page_size <? 1) then
    Some (Status400 "Invalid pagination parameters")
  else
    match init_default interval allowed_misses with
    | ValueError msg => Some (Status500 ("Processing failed: " ++ msg))
    | Returns monitor =>
        match monitor_heartbeats fuel monitor now_alerts (PyList events) with
        | None => None
        | Some all_alerts =>
            let services_events := sort_events_by_service monitor now_stats events in
            match service_stats_loop fuel monitor now_stats services_events [] with
            | None => None
            | Some service_stats =>
                let malformed_count := count_malformed monitor now_count events in
                let (paginated_alerts, pagination) :=
                  paginate all_alerts page page_size in
                Some (Status200
                        {| Response.alerts := paginated_alerts;
                           Response.pagination := pagination;
                           Response.serviceStats := service_stats;
                           Response.malformedCount := malformed_count;
                           Response.totalServices :=
                             Z.of_nat (List.length services_events);
                           Response.totalEvents := Z.of_nat (List.length events) |})
            end
        end
    end.

(** The number of events held by a dict of timelines. *)
Definition held (services : list (string * list PyVal)) : nat :=
  fold_right (fun entry total => (List.length (snd entry) + total)%nat) 0%nat services.

(** The entry of ['serviceStats'] for a service and its timeline. *)
Definition stats_of (fuel : nat) (monitor : HeartbeatMonitor) (now : Z)
    (service : string * list PyVal) (entry : string * ServiceStats.t) : Prop :=
  fst entry = fst service /\
  ServiceStats.totalEvents (snd entry) = Z.of_nat (List.length (snd service)) /\
  exists service_alerts,
    detect_missed_heartbeats fuel monitor now (snd service) = Some service_alerts /\
    ServiceStats.alerts (snd entry) = Z.of_nat (List.length service_alerts).

(** Two timelines with the same instants, one by one. *)
Definition same_instants (service_events service_events' : list PyVal) : Prop :=
  map event_time service_events = map event_time service_events'.

(** ** Arithmetic of [total_seconds] and of the tolerance *)

Lemma Qltb_true (x y : Q) : Qltb x y = true <-> (x < y)%Q.
Proof.
  unfold Qltb. rewrite negb_true_iff.
  split; intro H.
  - apply Qnot_le_lt. intro Hle. apply Qle_bool_iff in Hle. congruence.
  - destruct (Qle_bool y x) eqn:E; [| reflexivity].
    apply Qle_bool_iff in E. exfalso. apply (Qlt_not_le _ _ H E).
Qed.

Lemma Qltb_false (x y : Q) : Qltb x y = false <-> (y <= x)%Q.
Proof.
  unfold Qltb. rewrite negb_false_iff. apply Qle_bool_iff.
Qed.

Lemma total_seconds_lt_0 (td : Z) : (0 < total_seconds td)%Q <-> 0 < td.
Proof.
  unfold total_seconds, Qdiv, Qmult, Qinv, Qlt, inject_Z, us_per_second. simpl. lia.
Qed.

Lemma total_seconds_le_Z (td k : Z) :
  (total_seconds td <= inject_Z k)%Q <-> td <= timedelta_seconds k.
Proof.
  unfold total_seconds, timedelta_seconds, Qdiv, Qmult, Qinv, Qle, inject_Z, us_per_second.
  simpl. lia.
Qed.

Lemma total_seconds_ge_Z (td k : Z) :
  (inject_Z k <= total_seconds td)%Q <-> timedelta_seconds k <= td.
Proof.
  unfold total_seconds, timedelta_seconds, Qdiv, Qmult, Qinv, Qle, inject_Z, us_per_second.
  simpl. lia.
Qed.

Lemma total_seconds_interval (ce k : Z) :
  (total_seconds (ce + timedelta_seconds k - ce) == inject_Z k)%Q.
Proof.
  replace (ce + timedelta_seconds k - ce) with (timedelta_seconds k) by lia.
  unfold total_seconds, timedelta_seconds, Qdiv, Qmult, Qinv, Qeq, inject_Z, us_per_second.
  simpl. lia.
Qed.

Lemma tolerance_seconds_bounds (self : HeartbeatMonitor) :
  valid self ->
  (0 <= tolerance_seconds self <= inject_Z (interval_seconds self))%Q.
Proof.
  intros [(Hi & _ & Ht & _) Heq]. rewrite Heq.
  assert (H0 : (0 < inject_Z (interval_seconds self))%Q).
  { change 0%Q with (inject_Z 0). rewrite <- Zlt_Qlt. lia. }
  destruct Ht as [Ht0 Ht1]. split.
  - apply Qmult_le_0_compat; [apply Qlt_le_weak |]; assumption.
  - setoid_replace (inject_Z (interval_seconds self))
      with (inject_Z (interval_seconds self) * 1)%Q at 2 by ring.
    apply Qmult_le_l; assumption.
Qed.

(** A timestamp within the tolerance of a slot is at most one interval
    away from it. *)
Lemma within_tolerance_bound (self : HeartbeatMonitor) (td : Z) :
  valid self ->
  Qle_bool (Qabs (total_seconds td)) (tolerance_seconds self) = true ->
  - timedelta_seconds (interval_seconds self) <= td
    <= timedelta_seconds (interval_seconds self).
Proof.
  intros Hv H. apply Qle_bool_iff in H.
  destruct (tolerance_seconds_bounds self Hv) as [_ Hle].
  assert (Habs : (Qabs (total_seconds td) <= inject_Z (interval_seconds self))%Q)
    by (eapply Qle_trans; eassumption).
  apply Qabs_Qle_condition in Habs. destruct Habs as [Hlo Hhi].
  pose proof (proj1 (total_seconds_le_Z td (interval_seconds self)) Hhi) as Hhi'.
  pose proof (proj1 (total_seconds_ge_Z td (- interval_seconds self)) Hlo) as Hlo'.
  unfold timedelta_seconds, us_per_second in *. lia.
Qed.


(** A difference beyond the tolerance is positive. *)
Lemma beyond_tolerance_pos (self : HeartbeatMonitor) (td : Z) :
  valid self ->
  Qltb (tolerance_seconds self) (total_seconds td) = true -> 0 < td.
Proof.
  intros Hv H. apply Qltb_true in H.
  destruct (tolerance_seconds_bounds self Hv) as [H0 _].
  apply total_seconds_lt_0. eapply Qle_lt_trans; eassumption.
Qed.

Lemma interval_us_pos (self : HeartbeatMonitor) :
  valid self -> 0 < timedelta_seconds (interval_seconds self).
Proof.
  intros [(Hi & _) _]. unfold timedelta_seconds, us_per_second. lia.
Qed.

(** ** Fuel: more fuel does not change a result *)

Lemma scan_slot_mono (self : HeartbeatMonitor) (service_events : list PyVal) :
  forall fuel fuel' st r,
    (fuel <= fuel')%nat ->
    scan_slot fuel self service_events st = Some r ->
    scan_slot fuel' self service_events st = Some r.
Proof.
  induction fuel as [| fuel IH]; intros fuel' st r Hle H.
  - destruct fuel'; simpl in *;
      destruct (event_index st <? List.length service_events)%nat; congruence.
  - destruct fuel' as [| fuel']; [lia |]. simpl in *.
    destruct (event_index st <? List.length service_events)%nat; [| exact H].
    destruct (Qle_bool _ _); [exact H |].
    destruct (Qltb _ _); [exact H |].
    apply IH; [lia | exact H].
Qed.

Lemma extrapolate_mono (self : HeartbeatMonitor) (now : Z) :
  forall fuel fuel' st r,
    (fuel <= fuel')%nat ->
    extrapolate fuel self now st = Some r ->
    extrapolate fuel' self now st = Some r.
Proof.
  induction fuel as [| fuel IH]; intros fuel' st r Hle H.
  - destruct fuel'; simpl in *;
      destruct (consecutive_misses st <? allowed_misses self); congruence.
  - destruct fuel' as [| fuel']; [lia |]. simpl in *.
    destruct (consecutive_misses st <? allowed_misses self); [| exact H].
    destruct (Qltb _ _); [| exact H].
    apply IH; [lia | exact H].
Qed.

Lemma slot_step_mono (self : HeartbeatMonitor) (now : Z) (service_events : list PyVal) :
  forall fuel fuel' st r,
    (fuel <= fuel')%nat ->
    slot_step fuel self now service_events st = Some r ->
    slot_step fuel' self now service_events st = Some r.
Proof.
  intros fuel fuel' st r Hle H. unfold slot_step in *.
  destruct (scan_slot fuel self service_events _) as [[found scanned] |] eqn:Escan;
    [| discriminate].
  rewrite (scan_slot_mono _ _ _ _ _ _ Hle Escan).
  destruct (_ <=? _)%nat; [| exact H].
  destruct (Qltb _ _); [| exact H].
  destruct (extrapolate fuel self now _) as [final |] eqn:Eext; [| discriminate].
  rewrite (extrapolate_mono _ _ _ _ _ _ Hle Eext). exact H.
Qed.

Lemma main_loop_mono (self : HeartbeatMonitor) (now : Z) (service_events : list PyVal) :
  forall fuel fuel' st r,
    (fuel <= fuel')%nat ->
    main_loop fuel self now service_events st = Some r ->
    main_loop fuel' self now service_events st = Some r.
Proof.
  induction fuel as [| fuel IH]; intros fuel' st r Hle H.
  - destruct fuel'; simpl in *;
      destruct (event_index st <=? List.length service_events)%nat; congruence.
  - destruct fuel' as [| fuel']; [lia |].
    cbn [main_loop] in *.
    destruct (event_index st <=? List.length service_events)%nat; [| exact H].
    destruct (branch_of self service_events st).
    + apply IH; [lia | exact H].
    + destruct (slot_step (S fuel) self now service_events st) as [[st' stop] |] eqn:Estep;
        [| discriminate].
      assert (Hle' : (S fuel <= S fuel')%nat) by lia.
      rewrite (slot_step_mono _ _ _ _ _ _ _ Hle' Estep).
      destruct stop; [exact H |].
      apply IH; [lia | exact H].
Qed.

Lemma detect_mono (self : HeartbeatMonitor) (now : Z) (service_events : list PyVal) :
  forall fuel fuel' r,
    (fuel <= fuel')%nat ->
    detect_missed_heartbeats fuel self now service_events = Some r ->
    detect_missed_heartbeats fuel' self now service_events = Some r.
Proof.
  intros fuel fuel' r Hle H. unfold detect_missed_heartbeats in *.
  destruct service_events; [exact H |].
  eapply main_loop_mono; eassumption.
Qed.


Lemma terminates_with_of_mono {A : Type} (run : nat -> option A) (n : nat) (r : A) :
  (forall fuel fuel' x, (fuel <= fuel')%nat -> run fuel = Some x -> run fuel' = Some x) ->
  run n = Some r -> terminates_with run r.
Proof.
  intros Hmono H. exists n. intros fuel Hle. eapply Hmono; eassumption.
Qed.

(** ** The large-gap guard *)

Lemma large_gap_false (self : HeartbeatMonitor) (ce : Z) :
  0 <= interval_seconds self -> 1 <= gap_limit self -> large_gap self ce = false.
Proof.
  intros Hi Hg. unfold large_gap. apply Qltb_false.
  rewrite total_seconds_interval. rewrite <- Zle_Qle. nia.
Qed.

Lemma branch_of_valid (self : HeartbeatMonitor) (service_events : list PyVal)
    (st : DetectorState) :
  valid self -> branch_of self service_events st = ScanSlot.
Proof.
  intros [(Hi & _ & _ & _ & Hg) _]. unfold branch_of.
  rewrite large_gap_false by lia. reflexivity.
Qed.

(** ** One slot *)

Lemma count_miss_current_expected (self : HeartbeatMonitor) (st : DetectorState) :
  current_expected (count_miss self st) = current_expected st.
Proof. unfold count_miss. destruct (_ >=? _); reflexivity. Qed.

Lemma count_miss_event_index (self : HeartbeatMonitor) (st : DetectorState) :
  event_index (count_miss self st) = event_index st.
Proof. unfold count_miss. destruct (_ >=? _); reflexivity. Qed.

(** What the inner scan leaves: the alerts are untouched; on a match the
    clock is at the matched event, at most one interval before the slot;
    with no match the clock and the counter are untouched and the event
    under the cursor, if any, is later than the slot. *)
Lemma scan_slot_spec (self : HeartbeatMonitor) (service_events : list PyVal) :
  valid self ->
  forall fuel st found st',
    scan_slot fuel self service_events st = Some (found, st') ->
    alerts st' = alerts st /\
    (event_index st <= event_index st')%nat /\
    (found = true ->
       current_expected st - timedelta_seconds (interval_seconds self)
         <= current_expected st' /\
       consecutive_misses st' = 0 /\
       (event_index st < event_index st')%nat) /\
    (found = false ->
       current_expected st' = current_expected st /\
       consecutive_misses st' = consecutive_misses st /\
       ((event_index st' < List.length service_events)%nat ->
        0 < timestamp_at service_events (event_index st') - current_expected st')).
Proof.
  intros Hv. induction fuel as [| fuel IH]; intros st found st' H; cbn [scan_slot] in H.
  - destruct (event_index st <? List.length service_events)%nat eqn:E; [discriminate |].
    injection H as <- <-. apply Nat.ltb_ge in E.
    repeat split; try lia; try discriminate.
  - destruct (event_index st <? List.length service_events)%nat eqn:E.
    + destruct (Qle_bool _ _) eqn:Ewithin.
      * injection H as <- <-. simpl.
        apply within_tolerance_bound in Ewithin; [| exact Hv].
        repeat split; try lia; try discriminate.
      * destruct (Qltb _ _) eqn:Ebeyond.
        -- injection H as <- <-.
           apply beyond_tolerance_pos in Ebeyond; [| exact Hv].
           repeat split; try lia; try discriminate.
        -- apply IH in H. simpl in H.
           destruct H as (Ha & Hidx & Ht & Hf).
           split; [exact Ha |]. split; [lia |]. split.
           ++ intro Hfound. destruct (Ht Hfound) as (H1 & H2 & H3).
              repeat split; [exact H1 | exact H2 | lia].
           ++ exact Hf.
    + injection H as <- <-. apply Nat.ltb_ge in E.
      repeat split; try lia; try discriminate.
Qed.

Lemma scan_slot_total (self : HeartbeatMonitor) (service_events : list PyVal) :
  forall fuel st,
    (List.length service_events - event_index st <= fuel)%nat ->
    exists r, scan_slot fuel self service_events st = Some r.
Proof.
  induction fuel as [| fuel IH]; intros st Hfuel; simpl.
  - destruct (event_index st <? List.length service_events)%nat eqn:E; [| eauto].
    apply Nat.ltb_lt in E. lia.
  - destruct (event_index st <? List.length service_events)%nat eqn:E; [| eauto].
    apply Nat.ltb_lt in E.
    destruct (Qle_bool _ _); [eauto |].
    destruct (Qltb _ _); [eauto |].
    apply IH. simpl. lia.
Qed.

Lemma extrapolate_total (self : HeartbeatMonitor) (now : Z) :
  valid self ->
  forall fuel st,
    (Z.to_nat (now - current_expected st) < fuel)%nat ->
    exists r, extrapolate fuel self now st = Some r.
Proof.
  intros Hv. pose proof (interval_us_pos self Hv) as Hpos.
  induction fuel as [| fuel IH]; intros st Hfuel; [lia |]. simpl.
  destruct (consecutive_misses st <? allowed_misses self); [| eauto].
  destruct (Qltb _ _) eqn:E; [| eauto].
  apply beyond_tolerance_pos in E; [| exact Hv].
  apply IH. rewrite count_miss_current_expected. simpl. lia.
Qed.

Lemma slot_step_total (self : HeartbeatMonitor) (now : Z) (service_events : list PyVal)
    (st : DetectorState) :
  valid self ->
  exists r, terminates_with (fun fuel => slot_step fuel self now service_events st) r.
Proof.
  intros Hv.
  set (n1 := (List.length service_events - event_index st)%nat).
  destruct (scan_slot_total self service_events n1
              {| current_expected :=
                   current_expected st + timedelta_seconds (interval_seconds self);
                 consecutive_misses := consecutive_misses st;
                 event_index := event_index st;
                 alerts := alerts st |}) as [[found scanned] Hscan];
    [simpl; lia |].
  set (counted := if found then scanned else count_miss self scanned).
  set (n2 := S (Z.to_nat (now - current_expected counted))).
  destruct (extrapolate_total self now Hv n2 counted) as [final Hext]; [lia |].
  assert (H : exists r, slot_step (Nat.max n1 n2) self now service_events st = Some r).
  { unfold slot_step.
    rewrite (scan_slot_mono _ _ _ _ _ _ (Nat.le_max_l n1 n2) Hscan).
    fold counted.
    destruct (_ <=? _)%nat; [| eauto].
    destruct (Qltb _ _); [| eauto].
    rewrite (extrapolate_mono _ _ _ _ _ _ (Nat.le_max_r n1 n2) Hext). eauto. }
  destruct H as [r Hr]. exists r.
  eapply terminates_with_of_mono; [| exact Hr].
  intros fuel fuel' x. apply slot_step_mono.
Qed.

(** An iteration that does not end the loop leaves the cursor inside the
    timeline; the cursor does not move back, and when it stays, the clock
    has advanced by one interval and is still before the event under it. *)
Lemma slot_step_progress (self : HeartbeatMonitor) (now : Z) (service_events : list PyVal) :
  valid self ->
  forall fuel st st',
    slot_step fuel self now service_events st = Some (st', false) ->
    (event_index st' < List.length service_events)%nat /\
    (event_index st <= event_index st')%nat /\
    (event_index st' = event_index st ->
     current_expected st' =
       current_expected st + timedelta_seconds (interval_seconds self) /\
     0 < timestamp_at service_events (event_index st) - current_expected st').
Proof.
  intros Hv fuel st st' H. unfold slot_step in H.
  destruct (scan_slot fuel self service_events _) as [[found scanned] |] eqn:Escan;
    [| discriminate].
  apply (scan_slot_spec self service_events Hv) in Escan. simpl in Escan.
  destruct Escan as (_ & Hidx & Ht & Hf).
  destruct (_ <=? _)%nat eqn:Eend.
  - destruct (Qltb _ _); [destruct (extrapolate _ _ _ _) |]; discriminate.
  - injection H as <-. apply Nat.leb_gt in Eend.
    destruct found.
    + destruct (Ht eq_refl) as (_ & _ & Hlt). repeat split; try lia.
    + rewrite count_miss_event_index in *. rewrite count_miss_current_expected.
      destruct (Hf eq_refl) as (Hce & _ & Hfut).
      repeat split; try lia.
      match goal with Heq : event_index scanned = event_index st |- _ =>
        rewrite <- Heq end.
      exact (Hfut Eend).
Qed.

(** ** Termination of the detector *)

Lemma main_loop_total (self : HeartbeatMonitor) (now : Z) (service_events : list PyVal) :
  valid self ->
  forall k m st,
    (List.length service_events - event_index st = k)%nat ->
    Z.to_nat (timestamp_at service_events (event_index st) - current_expected st) = m ->
    exists r, terminates_with (fun fuel => main_loop fuel self now service_events st) r.
Proof.
  intros Hv. pose proof (interval_us_pos self Hv) as Hpos.
  induction k as [k IHk] using lt_wf_ind.
  induction m as [m IHm] using lt_wf_ind.
  intros st Hk Hm.
  destruct (event_index st <=? List.length service_events)%nat eqn:Econd.
  - destruct (slot_step_total self now service_events st Hv) as [[st' stop] [n Hn]].
    destruct stop.
    + exists (alerts st'), (S n). intros fuel Hle.
      destruct fuel as [| fuel]; [lia |]. cbn [main_loop].
      rewrite Econd, (branch_of_valid _ _ _ Hv), (Hn (S fuel)) by lia. reflexivity.
    + pose proof (Hn n (Nat.le_refl n)) as Hstep.
      apply (slot_step_progress self now service_events Hv) in Hstep.
      destruct Hstep as (Hin & Hidx & Hsame).
      assert (Hrec : exists r,
                 terminates_with (fun fuel => main_loop fuel self now service_events st') r).
      { destruct (Nat.eq_dec (event_index st') (event_index st)) as [Heq | Hne].
        - destruct (Hsame Heq) as (Hce & Hfut).
          eapply (IHm (Z.to_nat (timestamp_at service_events (event_index st')
                                 - current_expected st'))); try reflexivity.
          + rewrite Heq. lia.
          + rewrite Heq. exact Hk.
        - eapply (IHk (List.length service_events - event_index st')%nat);
            try reflexivity. lia. }
      destruct Hrec as [r [n' Hn']].
      exists r, (S (Nat.max n n')). intros fuel Hle.
      destruct fuel as [| fuel]; [lia |]. cbn [main_loop].
      rewrite Econd, (branch_of_valid _ _ _ Hv), (Hn (S fuel)) by lia.
      apply Hn'. lia.
  - exists (alerts st), 0%nat. intros fuel _.
    destruct fuel; simpl; rewrite Econd; reflexivity.
Qed.

Lemma detect_total (self : HeartbeatMonitor) (now : Z) (service_events : list PyVal) :
  valid self ->
  exists alert_times,
    terminates_with
      (fun fuel => detect_missed_heartbeats fuel self now service_events) alert_times.
Proof.
  intros Hv. unfold detect_missed_heartbeats.
  destruct service_events as [| first rest].
  - exists [], 0%nat. reflexivity.
  - eapply main_loop_total; [exact Hv | reflexivity | reflexivity].
Qed.

(** ** The alerts of one service are in order *)

Lemma StronglySorted_snoc (l : list Z) (x : Z) :
  StronglySorted Z.lt l -> Forall (fun a => a < x) l ->
  StronglySorted Z.lt (l ++ [x]).
Proof.
  induction 1 as [| a l Hs IH Ha]; intros Hall; simpl.
  - repeat constructor.
  - inversion Hall as [| ? ? Hax Hlx]; subst.
    constructor; [apply IH; exact Hlx |].
    apply Forall_app. split; [exact Ha |]. constructor; [exact Hax | constructor].
Qed.

Lemma in_order_later (first step : Z) (st st' : DetectorState) :
  alerts_in_order first step st ->
  alerts st' = alerts st ->
  current_expected st <= current_expected st' ->
  alerts_in_order first step st'.
Proof.
  intros (Hf & Hs & Hall) Ha Hce. unfold alerts_in_order. rewrite Ha.
  repeat split; [lia | exact Hs |].
  eapply Forall_impl; [| exact Hall]. simpl. intros a Hb. lia.
Qed.

Lemma in_order_count_miss (self : HeartbeatMonitor) (first step : Z)
    (st st' : DetectorState) :
  0 < step ->
  alerts_in_order first step st ->
  alerts st' = alerts st ->
  current_expected st + step <= current_expected st' ->
  alerts_in_order first step (count_miss self st').
Proof.
  intros Hstep (Hf & Hs & Hall) Ha Hce. unfold count_miss.
  destruct (_ >=? _); unfold alerts_in_order; simpl; rewrite Ha.
  - repeat split; [lia | |].
    + apply StronglySorted_snoc; [exact Hs |].
      eapply Forall_impl; [| exact Hall]. simpl. intros a Hb. lia.
    + apply Forall_app. split.
      * eapply Forall_impl; [| exact Hall]. simpl. intros a Hb. lia.
      * constructor; [lia | constructor].
  - repeat split; [lia | exact Hs |].
    eapply Forall_impl; [| exact Hall]. simpl. intros a Hb. lia.
Qed.

Lemma extrapolate_in_order (self : HeartbeatMonitor) (now first : Z) :
  valid self ->
  forall fuel st st',
    alerts_in_order first (timedelta_seconds (interval_seconds self)) st ->
    extrapolate fuel self now st = Some st' ->
    alerts_in_order first (timedelta_seconds (interval_seconds self)) st'.
Proof.
  intros Hv. pose proof (interval_us_pos self Hv) as Hpos.
  induction fuel as [| fuel IH]; intros st st' Hin H; cbn [extrapolate] in H.
  - destruct (_ <? _); [discriminate |]. injection H as <-. exact Hin.
  - destruct (_ <? _); [| injection H as <-; exact Hin].
    destruct (Qltb _ _).
    + eapply IH; [| exact H].
      eapply in_order_count_miss; [exact Hpos | exact Hin | reflexivity | simpl; lia].
    + injection H as <-.
      eapply in_order_later; [exact Hin | reflexivity | simpl; lia].
Qed.

Lemma slot_step_in_order (self : HeartbeatMonitor) (now first : Z)
    (service_events : list PyVal) :
  valid self ->
  forall fuel st st' stop,
    alerts_in_order first (timedelta_seconds (interval_seconds self)) st ->
    slot_step fuel self now service_events st = Some (st', stop) ->
    alerts_in_order first (timedelta_seconds (interval_seconds self)) st'.
Proof.
  intros Hv fuel st st' stop Hin H.
  pose proof (interval_us_pos self Hv) as Hpos.
  unfold slot_step in H.
  destruct (scan_slot fuel self service_events _) as [[found scanned] |] eqn:Escan;
    [| discriminate].
  apply (scan_slot_spec self service_events Hv) in Escan. simpl in Escan.
  destruct Escan as (Ha & _ & Ht & Hf).
  assert (Hcounted :
            alerts_in_order first (timedelta_seconds (interval_seconds self))
              (if found then scanned else count_miss self scanned)).
  { destruct found.
    - destruct (Ht eq_refl) as (Hce & _).
      eapply in_order_later; [exact Hin | exact Ha | lia].
    - destruct (Hf eq_refl) as (Hce & _).
      eapply in_order_count_miss; [exact Hpos | exact Hin | exact Ha | lia]. }
  destruct (_ <=? _)%nat.
  - destruct (Qltb _ _).
    + destruct (extrapolate _ _ _ _) as [final |] eqn:Eext; [| discriminate].
      injection H as <- <-.
      eapply extrapolate_in_order; eassumption.
    + injection H as <- <-. exact Hcounted.
  - injection H as <- <-. exact Hcounted.
Qed.

Lemma main_loop_in_order (self : HeartbeatMonitor) (now first : Z)
    (service_events : list PyVal) :
  valid self ->
  forall fuel st r,
    alerts_in_order first (timedelta_seconds (interval_seconds self)) st ->
    main_loop fuel self now service_events st = Some r ->
    StronglySorted Z.lt r /\
    Forall (fun a => first + timedelta_seconds (interval_seconds self) <= a) r.
Proof.
  intros Hv.
  assert (Hdone : forall st,
            alerts_in_order first (timedelta_seconds (interval_seconds self)) st ->
            StronglySorted Z.lt (alerts st) /\
            Forall (fun a => first + timedelta_seconds (interval_seconds self) <= a)
                   (alerts st)).
  { intros st (_ & Hs & Hall). split; [exact Hs |].
    eapply Forall_impl; [| exact Hall]. simpl. intros a Hb. lia. }
  induction fuel as [| fuel IH]; intros st r Hin H; cbn [main_loop] in H.
  - destruct (_ <=? _)%nat; [discriminate |]. injection H as <-. auto.
  - destruct (_ <=? _)%nat; [| injection H as <-; auto].
    rewrite (branch_of_valid _ _ _ Hv) in H.
    destruct (slot_step _ _ _ _ _) as [[st' stop] |] eqn:Estep; [| discriminate].
    pose proof (slot_step_in_order self now first service_events Hv _ _ _ _ Hin Estep)
      as Hin'.
    destruct stop.
    + injection H as <-. auto.
    + eapply IH; eassumption.
Qed.

Lemma detect_in_order (self : HeartbeatMonitor) (now : Z) (first : PyVal)
    (rest : list PyVal) (fuel : nat) (r : list Z) :
  valid self ->
  detect_missed_heartbeats fuel self now (first :: rest) = Some r ->
  StronglySorted Z.lt r /\
  Forall (fun a => event_time first + timedelta_seconds (interval_seconds self) <= a) r.
Proof.
  intros Hv H. unfold detect_missed_heartbeats in H.
  eapply main_loop_in_order; [exact Hv | | exact H].
  unfold alerts_in_order. simpl. repeat split; [lia | constructor | constructor].
Qed.

(** ** Heartbeats that are exactly on time *)










(** The other way round: where the service is not stale and the slot
    [allowed_misses] intervals after the last event is overdue by more
    than the tolerance, the trailing loop raises an alert. *)
Lemma extrapolate_extends (self : HeartbeatMonitor) (now : Z) :
  forall fuel st st',
    extrapolate fuel self now st = Some st' ->
    exists more, alerts st' = alerts st ++ more.
Proof.
  induction fuel as [| fuel IH]; intros st st' H; cbn [extrapolate] in H.
  - destruct (_ <? _); [discriminate |]. injection H as <-.
    exists []. rewrite app_nil_r. reflexivity.
  - destruct (_ <? _); [| injection H as <-; exists []; rewrite app_nil_r; reflexivity].
    destruct (Qltb _ _); [| injection H as <-; exists []; rewrite app_nil_r; reflexivity].
    apply IH in H. destruct H as [more Hmore].
    unfold count_miss in Hmore. destruct (_ >=? _); simpl in Hmore.
    + eexists. rewrite Hmore, <- app_assoc. reflexivity.
    + exists more. exact Hmore.
Qed.




(** ** Sorting by key *)

Lemma insert_by_perm {A : Type} (key : A -> Z) (x : A) (l : list A) :
  Permutation (x :: l) (insert_by key x l).
Proof.
  induction l as [| y rest IH]; simpl; [reflexivity |].
  destruct (key x <=? key y); [reflexivity |].
  rewrite perm_swap. apply perm_skip. exact IH.
Qed.

Lemma sort_by_perm {A : Type} (key : A -> Z) (l : list A) :
  Permutation l (sort_by key l).
Proof.
  induction l as [| x rest IH]; simpl; [reflexivity |].
  rewrite <- insert_by_perm. apply perm_skip. exact IH.
Qed.

Lemma insert_by_sorted {A : Type} (key : A -> Z) (x : A) (l : list A) :
  key_sorted key l -> key_sorted key (insert_by key x l).
Proof.
  unfold key_sorted. induction 1 as [| y rest Hs IH Hall]; simpl.
  - repeat constructor.
  - destruct (Z.leb_spec (key x) (key y)) as [Hle | Hgt].
    + constructor; [constructor; assumption |].
      constructor; [exact Hle |].
      eapply Forall_impl; [| exact Hall]. simpl. intros b Hb. lia.
    + constructor; [exact IH |].
      eapply Permutation_Forall; [apply insert_by_perm |].
      constructor; [lia | exact Hall].
Qed.

Lemma sort_by_sorted {A : Type} (key : A -> Z) (l : list A) :
  key_sorted key (sort_by key l).
Proof.
  induction l as [| x rest IH]; simpl; [constructor |].
  apply insert_by_sorted. exact IH.
Qed.

(** Sorting a list that is in order leaves it as it is. *)
Lemma sort_by_id {A : Type} (key : A -> Z) (l : list A) :
  key_sorted key l -> sort_by key l = l.
Proof.
  unfold key_sorted. induction 1 as [| x rest Hs IH Hall]; simpl; [reflexivity |].
  rewrite IH. destruct rest as [| y rest]; [reflexivity |]. simpl.
  inversion Hall as [| ? ? Hxy _]; subst.
  destruct (Z.leb_spec (key x) (key y)); [reflexivity | lia].
Qed.

(** The sort is stable: elements with the same key keep their order. *)
Lemma insert_by_filter {A : Type} (key : A -> Z) (k : Z) (x : A) (l : list A) :
  filter (fun a => key a =? k) (insert_by key x l) =
  filter (fun a => key a =? k) (x :: l).
Proof.
  induction l as [| y rest IH]; [reflexivity |].
  cbn [insert_by]. destruct (Z.leb_spec (key x) (key y)) as [Hle | Hgt]; [reflexivity |].
  cbn [filter] in *. rewrite IH.
  destruct (Z.eqb_spec (key x) k), (Z.eqb_spec (key y) k); try reflexivity. lia.
Qed.

Lemma sort_by_stable {A : Type} (key : A -> Z) (k : Z) (l : list A) :
  filter (fun a => key a =? k) (sort_by key l) = filter (fun a => key a =? k) l.
Proof.
  induction l as [| x rest IH]; [reflexivity |].
  cbn [sort_by]. rewrite insert_by_filter. cbn [filter]. rewrite IH. reflexivity.
Qed.

Lemma sort_by_head_least {A : Type} (key : A -> Z) (l : list A) (x : A) (rest : list A) :
  sort_by key l = x :: rest -> forall y, In y l -> key x <= key y.
Proof.
  intros Hsort y Hy.
  pose proof (sort_by_sorted key l) as Hs. rewrite Hsort in Hs.
  apply (Permutation_in _ (sort_by_perm key l)) in Hy. rewrite Hsort in Hy.
  inversion Hs as [| ? ? _ Hall]; subst.
  destruct Hy as [<- | Hy]; [lia |].
  rewrite Forall_forall in Hall. apply Hall. exact Hy.
Qed.

(** ** Grouping by service *)

Lemma services_append_keys (services : list (string * list PyVal)) (name : string)
    (event : PyVal) :
  NoDup (map fst services) -> NoDup (map fst (services_append services name event)).
Proof.
  induction services as [| [k evs] rest IH]; intros Hnd; simpl.
  - constructor; [intros [] | constructor].
  - destruct (String.eqb_spec k name) as [-> | Hne]; [exact Hnd |].
    simpl. inversion Hnd as [| ? ? Hnotin Hrest]; subst.
    constructor; [| apply IH; exact Hrest].
    intros Hin. apply Hnotin.
    clear - Hin Hne. induction rest as [| [k' evs'] rest IH]; simpl in *.
    + destruct Hin as [-> | []]. congruence.
    + destruct (String.eqb_spec k' name) as [-> | Hne'];
        simpl in *; destruct Hin as [Hin | Hin]; auto.
Qed.

Lemma services_get_append (services : list (string * list PyVal)) (name k : string)
    (event : PyVal) :
  services_get name (services_append services k event) =
  if String.eqb k name then services_get name services ++ [event]
  else services_get name services.
Proof.
  induction services as [| [k' evs] rest IH]; simpl.
  - destruct (String.eqb k name); reflexivity.
  - destruct (String.eqb_spec k' k) as [-> | Hne]; simpl.
    + destruct (String.eqb k name); reflexivity.
    + destruct (String.eqb_spec k' name) as [-> | Hne'].
      * destruct (String.eqb_spec k name) as [-> | _]; [congruence | reflexivity].
      * exact IH.
Qed.

Lemma services_get_In (services : list (string * list PyVal)) (name : string)
    (evs : list PyVal) :
  NoDup (map fst services) -> In (name, evs) services ->
  services_get name services = evs.
Proof.
  induction services as [| [k evs'] rest IH]; intros Hnd Hin; [destruct Hin |].
  simpl. inversion Hnd as [| ? ? Hnotin Hrest]; subst.
  destruct Hin as [Heq | Hin].
  - injection Heq as -> ->. rewrite String.eqb_refl. reflexivity.
  - destruct (String.eqb_spec k name) as [-> | _]; [| apply IH; assumption].
    exfalso. apply Hnotin. apply (in_map fst) in Hin. exact Hin.
Qed.

Lemma services_append_nonempty (services : list (string * list PyVal)) (name : string)
    (event : PyVal) :
  Forall (fun entry => snd entry <> []) services ->
  Forall (fun entry => snd entry <> []) (services_append services name event).
Proof.
  induction 1 as [| [k evs] rest Hne Hrest IH]; simpl.
  - constructor; [discriminate | constructor].
  - destruct (String.eqb k name).
    + constructor; [| exact Hrest]. simpl in *. destruct evs; discriminate.
    + constructor; [exact Hne | exact IH].
Qed.

(** After the first loop: the keys are pairwise distinct, no list is
    empty, and a key holds what it held before followed by the events of
    that service, in the order of the input. *)
Lemma group_events_spec (self : HeartbeatMonitor) (now : Z) (events : list PyVal) :
  forall services,
    NoDup (map fst services) ->
    Forall (fun entry => snd entry <> []) services ->
    NoDup (map fst (group_events self now events services)) /\
    Forall (fun entry => snd entry <> []) (group_events self now events services) /\
    forall name,
      services_get name (group_events self now events services) =
      services_get name services ++ events_of self now name events.
Proof.
  unfold group_events, events_of.
  induction events as [| event rest IH]; intros services Hnd Hne; simpl.
  - repeat split; try assumption. intros name. rewrite app_nil_r. reflexivity.
  - destruct (validate_event self now event) eqn:Ev; simpl.
    + destruct (IH (services_append services (service_name_of event) event))
        as (H1 & H2 & H3).
      { apply services_append_keys. exact Hnd. }
      { apply services_append_nonempty. exact Hne. }
      repeat split; try assumption.
      intros name. rewrite H3, services_get_append.
      destruct (String.eqb (service_name_of event) name).
      * rewrite <- app_assoc. reflexivity.
      * reflexivity.
    + apply IH; assumption.
Qed.

Lemma group_events_entry (self : HeartbeatMonitor) (now : Z) (events : list PyVal)
    (name : string) (evs : list PyVal) :
  In (name, evs) (group_events self now events []) ->
  evs = events_of self now name events /\ evs <> [].
Proof.
  intros Hin.
  destruct (group_events_spec self now events [] (NoDup_nil _) (Forall_nil _))
    as (Hnd & Hne & Hget).
  split.
  - rewrite <- (services_get_In _ _ _ Hnd Hin). apply Hget.
  - rewrite Forall_forall in Hne. apply (Hne _ Hin).
Qed.




(** ** Removing duplicates *)

Lemma unique_events_In (seen : list Z) (events : list PyVal) (event : PyVal) :
  In event (unique_events seen events) -> In event events.
Proof.
  revert seen. induction events as [| e rest IH]; intros seen Hin; simpl in *; [exact Hin |].
  destruct (existsb _ _).
  - right. eapply IH. exact Hin.
  - destruct Hin as [-> | Hin]; [left; reflexivity | right; eapply IH; exact Hin].
Qed.

Lemma unique_events_sorted (seen : list Z) (events : list PyVal) :
  key_sorted event_time events -> key_sorted event_time (unique_events seen events).
Proof.
  unfold key_sorted. intros Hs. revert seen.
  induction Hs as [| e rest Hs IH Hall]; intros seen; simpl; [constructor |].
  destruct (existsb _ _); [apply IH |].
  constructor; [apply IH |].
  rewrite Forall_forall in *. intros x Hx. apply Hall.
  eapply unique_events_In. exact Hx.
Qed.

(** Removing duplicates a second time removes nothing. *)
Lemma unique_events_idempotent (seen : list Z) (events : list PyVal) :
  unique_events seen (unique_events seen events) = unique_events seen events.
Proof.
  revert seen. induction events as [| e rest IH]; intros seen; simpl; [reflexivity |].
  destruct (existsb (Z.eqb (event_time e)) seen) eqn:Eseen; [apply IH |].
  simpl. rewrite Eseen. f_equal. apply IH.
Qed.

(** ** Grouping the output of the grouping again *)

Lemma validate_event_later (self : HeartbeatMonitor) (now now' : Z) (event : PyVal) :
  now <= now' ->
  validate_event self now event = true -> validate_event self now' event = true.
Proof.
  intros Hle H. unfold validate_event in *.
  destruct event; try discriminate.
  destruct (dict_get "service" items) as [service |]; try discriminate.
  destruct (dict_get "timestamp" items) as [timestamp_str |]; try discriminate.
  destruct service; try discriminate.
  destruct (negb _); try discriminate.
  destruct (_ <? _)%nat; try discriminate.
  destruct (parse_timestamp timestamp_str) as [timestamp |]; try discriminate.
  destruct (Z.gtb_spec timestamp (now + timedelta_hours 24)); try discriminate.
  destruct (Z.gtb_spec timestamp (now' + timedelta_hours 24)); [lia | reflexivity].
Qed.

Lemma services_append_fresh (services : list (string * list PyVal)) (name : string)
    (event : PyVal) :
  ~ In name (map fst services) ->
  services_append services name event = services ++ [(name, [event])].
Proof.
  induction services as [| [k evs] rest IH]; intros Hnotin; simpl; [reflexivity |].
  destruct (String.eqb_spec k name) as [-> | Hne].
  - exfalso. apply Hnotin. left. reflexivity.
  - rewrite IH; [reflexivity |]. intros Hin. apply Hnotin. right. exact Hin.
Qed.

Lemma services_append_last (services : list (string * list PyVal)) (name : string)
    (kept : list PyVal) (event : PyVal) :
  ~ In name (map fst services) ->
  services_append (services ++ [(name, kept)]) name event =
  services ++ [(name, kept ++ [event])].
Proof.
  induction services as [| [k evs] rest IH]; intros Hnotin; simpl.
  - rewrite String.eqb_refl. reflexivity.
  - destruct (String.eqb_spec k name) as [-> | Hne].
    + exfalso. apply Hnotin. left. reflexivity.
    + rewrite IH; [reflexivity |]. intros Hin. apply Hnotin. right. exact Hin.
Qed.

Lemma group_same_service (self : HeartbeatMonitor) (now : Z) (name : string)
    (services : list (string * list PyVal)) :
  ~ In name (map fst services) ->
  forall events kept,
    (forall e, In e events ->
               validate_event self now e = true /\ service_name_of e = name) ->
    group_events self now events (services ++ [(name, kept)]) =
    services ++ [(name, kept ++ events)].
Proof.
  intros Hnotin. unfold group_events.
  induction events as [| e rest IH]; intros kept Hall; simpl.
  - rewrite app_nil_r. reflexivity.
  - destruct (Hall e (or_introl eq_refl)) as [Hv Hname].
    rewrite Hv, Hname. simpl.
    rewrite services_append_last by exact Hnotin.
    rewrite IH by (intros e' He'; apply Hall; right; exact He').
    rewrite <- app_assoc. reflexivity.
Qed.

Lemma regroup (self : HeartbeatMonitor) (now : Z) :
  forall entries services,
    NoDup (map fst services ++ map fst entries) ->
    Forall (fun entry : string * list PyVal =>
              snd entry <> [] /\
              forall e, In e (snd entry) ->
                        validate_event self now e = true /\
                        service_name_of e = fst entry) entries ->
    group_events self now (List.concat (map snd entries)) services = services ++ entries.
Proof.
  induction entries as [| [name evs] rest IH]; intros services Hnd Hall; simpl.
  - rewrite app_nil_r. reflexivity.
  - inversion Hall as [| ? ? [Hne Hevs] Hrest]; subst. simpl in Hne, Hevs.
    assert (Hnotin : ~ In name (map fst services)).
    { intros Hin. simpl in Hnd. apply NoDup_remove_2 in Hnd.
      apply Hnd. apply in_or_app. left. exact Hin. }
    destruct evs as [| e evs]; [congruence |].
    unfold group_events in *. rewrite fold_left_app. simpl.
    destruct (Hevs e (or_introl eq_refl)) as [Hv Hname].
    rewrite Hv, Hname. simpl.
    rewrite services_append_fresh by exact Hnotin.
    pose proof (group_same_service self now name services Hnotin evs [e]) as Hsame.
    unfold group_events in Hsame. rewrite Hsame
      by (intros e' He'; apply Hevs; right; exact He').
    rewrite IH; [rewrite <- app_assoc; reflexivity | | exact Hrest].
    rewrite map_app, <- app_assoc. simpl. simpl in Hnd. exact Hnd.
Qed.

Lemma validate_event_has_timestamp (self : HeartbeatMonitor) (now : Z) (event : PyVal) :
  validate_event self now event = true -> has_timestamp event = true.
Proof.
  unfold validate_event, has_timestamp. intros H.
  destruct event; try discriminate.
  destruct (dict_get "service" items) as [service |]; try discriminate.
  destruct (dict_get "timestamp" items) as [timestamp_str |]; try discriminate.
  destruct service; try discriminate.
  destruct (negb _); try discriminate.
  destruct (_ <? _)%nat; try discriminate.
  destruct (parse_timestamp timestamp_str); [reflexivity | discriminate].
Qed.

(** What [sort_events_by_service] returns: pairwise distinct names, and
    for each name a timeline that is not empty, holds events that pass
    [validate_event] under that name, is ascending, and has no duplicate
    left to remove. *)
Lemma sort_events_by_service_entries (self : HeartbeatMonitor) (now : Z)
    (events : list PyVal) :
  NoDup (map fst (sort_events_by_service self now events)) /\
  Forall (fun entry : string * list PyVal =>
            (snd entry <> [] /\
             forall e, In e (snd entry) ->
                       validate_event self now e = true /\
                       service_name_of e = fst entry) /\
            key_sorted event_time (snd entry) /\
            unique_events [] (snd entry) = snd entry)
         (sort_events_by_service self now events).
Proof.
  unfold sort_events_by_service.
  destruct (group_events_spec self now events [] (NoDup_nil _) (Forall_nil _))
    as (Hnd & _ & _).
  split.
  - rewrite map_map. simpl. exact Hnd.
  - rewrite Forall_forall. intros [name tl] Hin.
    apply in_map_iff in Hin. destruct Hin as ([name' g] & Heq & Hin).
    simpl in Heq. injection Heq as <- <-.
    destruct (group_events_entry self now events name' g Hin) as [Hg Hne].
    simpl. repeat split.
    + destruct (sort_by event_time g) as [| x r] eqn:Esort.
      * pose proof (sort_by_perm event_time g) as Hp. rewrite Esort in Hp.
        apply Permutation_sym, Permutation_nil in Hp. congruence.
      * simpl. discriminate.
    + apply unique_events_In in H.
      apply (Permutation_in _ (Permutation_sym (sort_by_perm event_time g))) in H.
      rewrite Hg in H. unfold events_of in H. apply filter_In in H.
      destruct H as [_ H]. apply andb_true_iff in H. apply H.
    + apply unique_events_In in H.
      apply (Permutation_in _ (Permutation_sym (sort_by_perm event_time g))) in H.
      rewrite Hg in H. unfold events_of in H. apply filter_In in H.
      destruct H as [_ H]. apply andb_true_iff in H. destruct H as [_ H].
      apply String.eqb_eq in H. exact H.
    + apply unique_events_sorted, sort_by_sorted.
    + apply unique_events_idempotent.
Qed.

(** Every event of a timeline that [sort_events_by_service] returns has a
    timestamp that parses. *)
Lemma sort_events_by_service_timestamps (self : HeartbeatMonitor) (now : Z)
    (events : list PyVal) (name : string) (timeline : list PyVal) :
  In (name, timeline) (sort_events_by_service self now events) ->
  forallb has_timestamp timeline = true.
Proof.
  intros Hin.
  destruct (sort_events_by_service_entries self now events) as [_ Hall].
  rewrite Forall_forall in Hall. destruct (Hall _ Hin) as ((_ & Hevs) & _).
  apply forallb_forall. intros e He.
  destruct (Hevs e He) as [Hv _].
  eapply validate_event_has_timestamp. exact Hv.
Qed.


(** ** The claims on the constructor, the validator and the detector *)

(** C7.  The constructor raises a [ValueError] exactly when some field is
    outside its range: [interval_seconds] not in 1..3600, [allowed_misses]
    not in 1..10, [tolerance] not between 0 and 1, [future_limit] below 0
    or [gap_limit] below 1.  With every field in range it returns the
    monitor that stores them, and every monitor it returns is valid. *)
Theorem init_fails_iff_out_of_range (i a : Z) (t : Q) (f g : Z) :
  ((exists msg, init i a t f g = ValueError msg) <-> out_of_range i a t f g) /\
  (in_range i a t f g ->
   init i a t f g =
   Returns {| interval_seconds := i; allowed_misses := a; tolerance := t;
              future_limit := f; gap_limit := g;
              tolerance_seconds := (inject_Z i * t)%Q |}) /\
  (forall self, init i a t f g = Returns self -> valid self).
Proof.
  unfold init, out_of_range, in_range, valid.
  destruct (Z.leb_spec i 0) as [Hi0 | Hi0]; [init_raises I |].
  destruct (Z.gtb_spec i 3600) as [Hi1 | Hi1]; [init_raises I |].
  destruct (Z.leb_spec a 0) as [Ha0 | Ha0]; [init_raises I |].
  destruct (Z.gtb_spec a 10) as [Ha1 | Ha1]; [init_raises I |].
  destruct (Qle_bool 0 t) eqn:Et0; cbn [andb negb].
  2:{ assert (Hn : ~ (0 <= t <= 1)%Q).
      { intros [H _]. apply Qle_bool_iff in H. congruence. }
      init_raises Hn. }
  destruct (Qle_bool t 1) eqn:Et1; cbn [negb].
  2:{ assert (Hn : ~ (0 <= t <= 1)%Q).
      { intros [_ H]. apply Qle_bool_iff in H. congruence. }
      init_raises Hn. }
  apply Qle_bool_iff in Et0, Et1.
  destruct (Z.ltb_spec f 0) as [Hf | Hf]; [init_raises I |].
  destruct (Z.leb_spec g 0) as [Hg | Hg]; [init_raises I |].
  split; [| split].
  - split; [intros [msg Hmsg]; discriminate |].
    intros [H | [H | [H | [H | H]]]]; try lia. exfalso. apply H. split; assumption.
  - reflexivity.
  - intros self Hself. injection Hself as <-. simpl.
    repeat split; try assumption; lia.
Qed.

(** C8.  [validate_event] decides the same for any two values of
    [future_limit], and a record that satisfies the structural rules is
    rejected exactly when its instant is more than 24 hours after the
    clock reading. *)
Theorem validate_event_future_limit_inert (self : HeartbeatMonitor) (now : Z)
    (event : PyVal) :
  (forall fl1 fl2,
     validate_event (with_future_limit self fl1) now event =
     validate_event (with_future_limit self fl2) now event) /\
  (forall timestamp,
     well_formed event timestamp ->
     (validate_event self now event = false <-> now + timedelta_hours 24 < timestamp)).
Proof.
  split; [reflexivity |].
  intros timestamp (d & s & ts & -> & Hs & Hts & Hstrip & Hlen & Hparse).
  unfold validate_event. rewrite Hs, Hts, Hstrip, Hparse. cbn [negb].
  apply Nat.ltb_ge in Hlen. rewrite Hlen.
  destruct (Z.gtb_spec timestamp (now + timedelta_hours 24)) as [Hgt | Hle].
  - split; [lia | reflexivity].
  - split; [discriminate | lia].
Qed.

(** C2.  With a positive interval and [gap_limit >= 1] the guard
    [gap_seconds > max_gap] is false at every value of the clock, so no
    iteration of the main loop, on any timeline and in any state, takes
    the large-gap branch. *)
Theorem large_gap_branch_unreachable (self : HeartbeatMonitor)
    (service_events : list PyVal) (st : DetectorState) :
  0 < interval_seconds self ->
  1 <= gap_limit self ->
  large_gap self (current_expected st) = false /\
  branch_of self service_events st = ScanSlot.
Proof.
  intros Hi Hg.
  assert (Hguard : large_gap self (current_expected st) = false).
  { unfold large_gap. apply Qltb_false.
    rewrite total_seconds_interval. rewrite <- Zle_Qle. nia. }
  split; [exact Hguard |].
  unfold branch_of. rewrite Hguard. reflexivity.
Qed.

(** C3.  For a valid monitor, every timeline (in order or not) and every
    clock reading, [detect_missed_heartbeats] returns a list: from some
    amount of fuel on, its loops end. *)
Theorem detect_missed_heartbeats_terminates (self : HeartbeatMonitor) (now : Z)
    (service_events : list PyVal) :
  valid self ->
  forallb has_timestamp service_events = true ->
  exists alert_times,
    terminates_with
      (fun fuel => detect_missed_heartbeats fuel self now service_events) alert_times.
Proof.
  intros Hv _. destruct service_events as [| first rest].
  - exists [], 0%nat. intros fuel _. reflexivity.
  - destruct (main_loop_total self now (first :: rest) Hv _ _
                {| current_expected := event_time first; consecutive_misses := 0;
                   event_index := 1; alerts := [] |} eq_refl eq_refl)
      as [r Hr].
    exists r. exact Hr.
Qed.

(** C10.  For a valid monitor, every timeline (in order or not) and every
    clock reading, the alert instants that [detect_missed_heartbeats]
    returns for the service are strictly increasing. *)
Theorem alert_times_strictly_increasing (self : HeartbeatMonitor) (now : Z)
    (service_events : list PyVal) :
  valid self ->
  forallb has_timestamp service_events = true ->
  exists alert_times,
    terminates_with
      (fun fuel => detect_missed_heartbeats fuel self now service_events) alert_times /\
    StronglySorted Z.lt alert_times.
Proof.
  intros Hv _.
  destruct (detect_total self now service_events Hv) as [r [n Hn]].
  exists r. split; [exists n; exact Hn |].
  specialize (Hn n (Nat.le_refl n)).
  destruct service_events as [| first rest].
  - injection Hn as <-. constructor.
  - apply (detect_in_order self now first rest n r Hv Hn).
Qed.


(** ** Collecting the alerts of all services *)

Lemma collect_alerts_mono (self : HeartbeatMonitor) (now : Z) :
  forall services fuel fuel' r,
    (fuel <= fuel')%nat ->
    collect_alerts fuel self now services = Some r ->
    collect_alerts fuel' self now services = Some r.
Proof.
  induction services as [| [name tl] rest IH]; intros fuel fuel' r Hle H; simpl in *.
  - exact H.
  - destruct (detect_missed_heartbeats fuel self now tl) as [times |] eqn:Edet;
      [| discriminate].
    destruct (collect_alerts fuel self now rest) as [more |] eqn:Erest;
      [| discriminate].
    rewrite (detect_mono _ _ _ _ _ _ Hle Edet), (IH _ _ _ Hle Erest). exact H.
Qed.

Lemma collect_alerts_total (self : HeartbeatMonitor) (now : Z) :
  valid self ->
  forall services,
    exists r, terminates_with (fun fuel => collect_alerts fuel self now services) r.
Proof.
  intros Hv. induction services as [| [name tl] rest IH].
  - exists [], 0%nat. reflexivity.
  - destruct IH as [more [n Hn]].
    destruct (detect_total self now tl Hv) as [times [m Hm]].
    eexists. exists (Nat.max n m). intros fuel Hle. simpl.
    rewrite Hm, Hn by lia. reflexivity.
Qed.

Lemma collect_alerts_In (self : HeartbeatMonitor) (now : Z) (fuel : nat) :
  forall services all_alerts a,
    collect_alerts fuel self now services = Some all_alerts ->
    In a all_alerts ->
    exists tl alert_times alert_time,
      In (service a, tl) services /\
      detect_missed_heartbeats fuel self now tl = Some alert_times /\
      In alert_time alert_times /\
      alert_at a = strftime_seconds alert_time.
Proof.
  induction services as [| [name tl] rest IH]; intros all_alerts a H Hin; simpl in H.
  - injection H as <-. destruct Hin.
  - destruct (detect_missed_heartbeats fuel self now tl) as [times |] eqn:Edet;
      [| discriminate].
    destruct (collect_alerts fuel self now rest) as [more |] eqn:Erest;
      [| discriminate].
    injection H as <-. apply in_app_or in Hin. destruct Hin as [Hin | Hin].
    + apply in_map_iff in Hin. destruct Hin as (t & <- & Ht). simpl.
      exists tl, times, t. repeat split; try assumption. left. reflexivity.
    + destruct (IH more a eq_refl Hin) as (tl' & times' & t & H1 & H2 & H3 & H4).
      exists tl', times', t. repeat split; try assumption. right. exact H1.
Qed.

Lemma monitor_heartbeats_total (self : HeartbeatMonitor) (now : Z) (events : list PyVal) :
  valid self ->
  exists all_alerts,
    terminates_with
      (fun fuel =>
         collect_alerts fuel self now (sort_events_by_service self now events))
      all_alerts /\
    terminates_with
      (fun fuel => monitor_heartbeats fuel self now (PyList events))
      (sort_by alert_at all_alerts).
Proof.
  intros Hv.
  destruct (collect_alerts_total self now Hv (sort_events_by_service self now events))
    as [all_alerts [n Hn]].
  exists all_alerts. split; [exists n; exact Hn |].
  exists n. intros fuel Hle. unfold monitor_heartbeats. rewrite Hn by exact Hle.
  reflexivity.
Qed.

Lemma monitor_heartbeats_mono (self : HeartbeatMonitor) (now : Z) (events : PyVal) :
  forall fuel fuel' r,
    (fuel <= fuel')%nat ->
    monitor_heartbeats fuel self now events = Some r ->
    monitor_heartbeats fuel' self now events = Some r.
Proof.
  intros fuel fuel' r Hle H. unfold monitor_heartbeats in *.
  destruct events; try exact H.
  destruct (collect_alerts fuel self now _) as [all_alerts |] eqn:Ecollect;
    [| discriminate].
  rewrite (collect_alerts_mono _ _ _ _ _ _ Hle Ecollect). exact H.
Qed.

(** The second of an alert is not before an instant that lies a whole
    interval before the instant of the alert. *)
Lemma strftime_seconds_after (self : HeartbeatMonitor) (first alert_time : Z) :
  valid self ->
  first + timedelta_seconds (interval_seconds self) <= alert_time ->
  first <= timedelta_seconds (strftime_seconds alert_time).
Proof.
  intros [(Hi & _) _] Hle.
  unfold timedelta_seconds, strftime_seconds, us_per_second in *.
  pose proof (Z.div_mod alert_time 1000000 ltac:(lia)) as Hdiv.
  pose proof (Z.mod_pos_bound alert_time 1000000 ltac:(lia)) as Hmod.
  lia.
Qed.

(** ** The claims on the whole pipeline *)

(** C9.  Grouping is idempotent: the concatenation of the timelines that
    [sort_events_by_service] returns, grouped again at the same or a
    later clock reading, gives the same names in the same order, each
    with the same timeline. *)
Theorem sort_events_by_service_idempotent (self : HeartbeatMonitor) (now now' : Z)
    (events : list PyVal) :
  now <= now' ->
  sort_events_by_service self now'
    (List.concat (map snd (sort_events_by_service self now events))) =
  sort_events_by_service self now events.
Proof.
  intros Hle.
  destruct (sort_events_by_service_entries self now events) as [Hnd Hall].
  remember (sort_events_by_service self now events) as grouped eqn:Hgrouped.
  clear Hgrouped. unfold sort_events_by_service.
  rewrite (regroup self now' grouped []).
  - simpl. clear Hnd.
    induction Hall as [| [name tl] rest (_ & Hsorted & Hunique) _ IH]; [reflexivity |].
    simpl in *. rewrite IH. rewrite (sort_by_id _ _ Hsorted), Hunique. reflexivity.
  - simpl. exact Hnd.
  - eapply Forall_impl; [| exact Hall]. simpl.
    intros entry ((Hne & Hevs) & _). split; [exact Hne |].
    intros e He. destruct (Hevs e He) as [Hv Hname].
    split; [eapply validate_event_later; eassumption | exact Hname].
Qed.

(** C4.  For a valid monitor, every input list and every clock reading,
    [monitor_heartbeats] returns, and every alert it returns is for a
    service with a validated event in the input; the earliest of those
    events is not later than the alert. *)
Theorem alert_not_before_first_event (self : HeartbeatMonitor) (now : Z)
    (events : list PyVal) :
  valid self ->
  exists out,
    terminates_with (fun fuel => monitor_heartbeats fuel self now (PyList events)) out /\
    forall a, In a out ->
      exists first,
        In first events /\
        validate_event self now first = true /\
        service_name_of first = service a /\
        (forall e, In e events ->
                   validate_event self now e = true ->
                   service_name_of e = service a ->
                   event_time first <= event_time e) /\
        event_time first <= timedelta_seconds (alert_at a).
Proof.
  intros Hv.
  destruct (monitor_heartbeats_total self now events Hv)
    as (all_alerts & [n Hcollect] & Hout).
  exists (sort_by alert_at all_alerts). split; [exact Hout |].
  intros a Ha.
  apply (Permutation_in _ (Permutation_sym (sort_by_perm alert_at all_alerts))) in Ha.
  destruct (collect_alerts_In self now n _ _ a (Hcollect n (Nat.le_refl n)) Ha)
    as (tl & times & t & Hentry & Hdet & Ht & Hat).
  unfold sort_events_by_service in Hentry. apply in_map_iff in Hentry.
  destruct Hentry as ([name g] & Heq & Hg). simpl in Heq. injection Heq as -> <-.
  destruct (group_events_entry self now events _ g Hg) as [Hevents Hne].
  destruct (sort_by event_time g) as [| first rest] eqn:Esort.
  { simpl in Hdet. injection Hdet as <-. destruct Ht. }
  simpl in Hdet.
  assert (Hfirst : In first g).
  { apply (Permutation_in _ (Permutation_sym (sort_by_perm event_time g))).
    rewrite Esort. left. reflexivity. }
  pose proof Hfirst as Hfirst'. rewrite Hevents in Hfirst'.
  unfold events_of in Hfirst'. apply filter_In in Hfirst'.
  destruct Hfirst' as [Hin Hok]. apply andb_true_iff in Hok.
  destruct Hok as [Hvalid Hname]. apply String.eqb_eq in Hname.
  exists first. repeat split; try assumption.
  - intros e He Hev Hen.
    apply (sort_by_head_least event_time g first rest Esort).
    rewrite Hevents. unfold events_of. apply filter_In. split; [exact He |].
    rewrite Hev, Hen, String.eqb_refl. reflexivity.
  - rewrite Hat. apply (strftime_seconds_after self); [exact Hv |].
    destruct (detect_in_order self now first _ n times Hv Hdet) as [_ Hall].
    rewrite Forall_forall in Hall. apply Hall. exact Ht.
Qed.



(** ** More on the detector *)

Lemma scan_slot_alerts (self : HeartbeatMonitor) (service_events : list PyVal) :
  forall fuel st found st',
    scan_slot fuel self service_events st = Some (found, st') ->
    alerts st' = alerts st /\
    (found = false ->
     current_expected st' = current_expected st /\
     consecutive_misses st' = consecutive_misses st) /\
    (found = true ->
     consecutive_misses st' = 0 /\
     exists i, (i < List.length service_events)%nat /\
               current_expected st' = timestamp_at service_events i).
Proof.
  assert (Hnone : forall st : DetectorState,
            alerts st = alerts st /\
            (false = false ->
             current_expected st = current_expected st /\
             consecutive_misses st = consecutive_misses st) /\
            (false = true ->
             consecutive_misses st = 0 /\
             exists i, (i < List.length service_events)%nat /\
                       current_expected st = timestamp_at service_events i)).
  { intros st. split; [reflexivity |].
    split; [intros _; split; reflexivity | discriminate]. }
  induction fuel as [| fuel IH]; intros st found st' H; cbn [scan_slot] in H.
  - destruct (Nat.ltb_spec (event_index st) (List.length service_events));
      [discriminate |].
    injection H as <- <-. apply Hnone.
  - destruct (Nat.ltb_spec (event_index st) (List.length service_events)) as [Hlt | Hge].
    + destruct (Qle_bool _ _).
      * injection H as <- <-. simpl. split; [reflexivity |].
        split; [discriminate |]. intros _. split; [reflexivity |].
        exists (event_index st). split; [exact Hlt | reflexivity].
      * destruct (Qltb _ _).
        -- injection H as <- <-. apply Hnone.
        -- apply IH in H. simpl in H. exact H.
    + injection H as <- <-. apply Hnone.
Qed.




(** *** History and extrapolation *)

Lemma main_loop_history (self : HeartbeatMonitor) (now1 now2 : Z)
    (service_events : list PyVal) :
  stale self now1 service_events ->
  forall fuel st r1 r2,
    main_loop fuel self now1 service_events st = Some r1 ->
    main_loop fuel self now2 service_events st = Some r2 ->
    exists more, r2 = r1 ++ more.
Proof.
  intros Hstale. apply Qltb_false in Hstale.
  induction fuel as [| fuel IH]; intros st r1 r2 H1 H2; cbn [main_loop] in H1, H2.
  - destruct (_ <=? _)%nat; [discriminate |]. injection H1 as <-. injection H2 as <-.
    exists []. rewrite app_nil_r. reflexivity.
  - destruct (_ <=? _)%nat.
    2:{ injection H1 as <-. injection H2 as <-. exists []. rewrite app_nil_r. reflexivity. }
    destruct (branch_of self service_events st); [eapply IH; eassumption |].
    unfold slot_step in H1, H2.
    destruct (scan_slot (S fuel) self service_events _) as [[found scanned] |];
      [| discriminate].
    destruct (_ <=? _)%nat.
    + rewrite Hstale in H1. injection H1 as <-.
      destruct (Qltb (total_seconds (now2 - event_time (last service_events PyNone))) _).
      * destruct (extrapolate _ _ now2 _) as [final |] eqn:Eext; [| discriminate].
        injection H2 as <-. eapply extrapolate_extends. exact Eext.
      * injection H2 as <-. exists []. rewrite app_nil_r. reflexivity.
    + eapply IH; eassumption.
Qed.

(** X11.  The alerts of a service at a clock reading at which it is stale
    are the head of its alerts at every clock reading: the trailing
    extrapolation only adds alerts at the end.  Two clock readings at
    which the service is stale give the same alerts. *)
Theorem detect_history_is_prefix (self : HeartbeatMonitor) (now1 now2 : Z)
    (service_events : list PyVal) :
  valid self ->
  forallb has_timestamp service_events = true ->
  stale self now1 service_events ->
  exists history alert_times,
    terminates_with
      (fun fuel => detect_missed_heartbeats fuel self now1 service_events) history /\
    terminates_with
      (fun fuel => detect_missed_heartbeats fuel self now2 service_events) alert_times /\
    (exists more, alert_times = history ++ more) /\
    (stale self now2 service_events -> alert_times = history).
Proof.
  intros Hv _ Hstale.
  destruct (detect_total self now1 service_events Hv) as [r1 [n1 Hn1]].
  destruct (detect_total self now2 service_events Hv) as [r2 [n2 Hn2]].
  exists r1, r2.
  split; [exists n1; exact Hn1 |]. split; [exists n2; exact Hn2 |].
  specialize (Hn1 (Nat.max n1 n2) (Nat.le_max_l _ _)).
  specialize (Hn2 (Nat.max n1 n2) (Nat.le_max_r _ _)).
  unfold detect_missed_heartbeats in Hn1, Hn2.
  destruct service_events as [| first rest].
  - injection Hn1 as <-. injection Hn2 as <-. split; [exists []; reflexivity | reflexivity].
  - destruct (main_loop_history self now1 now2 _ Hstale _ _ _ _ Hn1 Hn2) as [more Hmore].
    split; [exists more; exact Hmore |].
    intros Hstale2.
    destruct (main_loop_history self now2 now1 _ Hstale2 _ _ _ _ Hn2 Hn1) as [more' Hmore'].
    rewrite Hmore' in Hmore at 1.
    apply (f_equal (@List.length Z)) in Hmore.
    rewrite !length_app in Hmore.
    destruct more' as [| x more']; [rewrite app_nil_r in Hmore'; exact (eq_sym Hmore') |].
    simpl in Hmore. lia.
Qed.

(** *** Alerts are far apart *)

Lemma last_cons_default {A : Type} (a : A) (l : list A) (d d' : A) :
  last (a :: l) d = last (a :: l) d'.
Proof.
  revert a. induction l as [| b l IH]; intros a; [reflexivity |].
  change (last (b :: l) d = last (b :: l) d'). apply IH.
Qed.

Lemma apart_snoc (gap lo : Z) (l : list Z) (x : Z) :
  apart gap lo l -> last l lo + gap <= x -> apart gap lo (l ++ [x]).
Proof.
  revert lo. induction l as [| a l IH]; intros lo Hl Hx.
  - simpl in *. split; [exact Hx | exact I].
  - destruct Hl as [Ha Hl]. split; [exact Ha |].
    apply IH; [exact Hl |]. destruct l as [| b l]; [exact Hx |].
    rewrite (last_cons_default b l a lo).
    change (last (a :: b :: l) lo) with (last (b :: l) lo) in Hx. exact Hx.
Qed.

Lemma behind_later (first gap step : Z) (st st' : DetectorState) :
  0 <= step ->
  misses_behind first gap step st ->
  alerts st' = alerts st ->
  (consecutive_misses st' = consecutive_misses st \/ consecutive_misses st' = 0) ->
  current_expected st <= current_expected st' ->
  misses_behind first gap step st'.
Proof.
  intros Hstep (Hm & Hap & Hce) Ha Hm' Hle. unfold misses_behind. rewrite Ha.
  destruct Hm' as [-> | ->]; repeat split; try assumption; nia.
Qed.

Lemma behind_count_miss (self : HeartbeatMonitor) (first step : Z)
    (st st' : DetectorState) :
  0 < step ->
  misses_behind first (allowed_misses self * step) step st ->
  alerts st' = alerts st ->
  consecutive_misses st' = consecutive_misses st ->
  current_expected st + step <= current_expected st' ->
  misses_behind first (allowed_misses self * step) step (count_miss self st').
Proof.
  intros Hstep (Hm & Hap & Hce) Ha Hm' Hle. unfold count_miss, misses_behind.
  destruct (Z.geb_spec (consecutive_misses st' + 1) (allowed_misses self)) as [Hge | Hlt];
    simpl; rewrite Ha, ?Hm'.
  - split; [lia |]. rewrite last_last. split; [| lia].
    apply apart_snoc; [exact Hap |]. nia.
  - repeat split; try assumption; nia.
Qed.

Lemma extrapolate_behind (self : HeartbeatMonitor) (now first : Z) :
  valid self ->
  forall fuel st st',
    misses_behind first
      (allowed_misses self * timedelta_seconds (interval_seconds self))
      (timedelta_seconds (interval_seconds self)) st ->
    extrapolate fuel self now st = Some st' ->
    misses_behind first
      (allowed_misses self * timedelta_seconds (interval_seconds self))
      (timedelta_seconds (interval_seconds self)) st'.
Proof.
  intros Hv. pose proof (interval_us_pos self Hv) as Hpos.
  induction fuel as [| fuel IH]; intros st st' Hin H; cbn [extrapolate] in H.
  - destruct (_ <? _); [discriminate |]. injection H as <-. exact Hin.
  - destruct (_ <? _); [| injection H as <-; exact Hin].
    destruct (Qltb _ _).
    + eapply IH; [| exact H].
      eapply behind_count_miss; [exact Hpos | exact Hin | reflexivity | reflexivity |].
      simpl. lia.
    + injection H as <-.
      eapply behind_later; [| exact Hin | reflexivity | left; reflexivity |]; simpl; lia.
Qed.

Lemma slot_step_behind (self : HeartbeatMonitor) (now first : Z)
    (service_events : list PyVal) :
  valid self ->
  forall fuel st st' stop,
    misses_behind first
      (allowed_misses self * timedelta_seconds (interval_seconds self))
      (timedelta_seconds (interval_seconds self)) st ->
    slot_step fuel self now service_events st = Some (st', stop) ->
    misses_behind first
      (allowed_misses self * timedelta_seconds (interval_seconds self))
      (timedelta_seconds (interval_seconds self)) st'.
Proof.
  intros Hv fuel st st' stop Hin H.
  pose proof (interval_us_pos self Hv) as Hpos.
  unfold slot_step in H.
  destruct (scan_slot fuel self service_events _) as [[found scanned] |] eqn:Escan;
    [| discriminate].
  apply (scan_slot_spec self service_events Hv) in Escan. simpl in Escan.
  destruct Escan as (Ha & _ & Ht & Hf).
  assert (Hcounted :
            misses_behind first
              (allowed_misses self * timedelta_seconds (interval_seconds self))
              (timedelta_seconds (interval_seconds self))
              (if found then scanned else count_miss self scanned)).
  { destruct found.
    - destruct (Ht eq_refl) as (Hce & Hm & _).
      eapply behind_later; [| exact Hin | exact Ha | right; exact Hm |]; lia.
    - destruct (Hf eq_refl) as (Hce & Hm & _).
      eapply behind_count_miss; [exact Hpos | exact Hin | exact Ha | exact Hm | lia]. }
  destruct (_ <=? _)%nat.
  - destruct (Qltb _ _).
    + destruct (extrapolate _ _ _ _) as [final |] eqn:Eext; [| discriminate].
      injection H as <- <-. eapply extrapolate_behind; eassumption.
    + injection H as <- <-. exact Hcounted.
  - injection H as <- <-. exact Hcounted.
Qed.

Lemma main_loop_behind (self : HeartbeatMonitor) (now first : Z)
    (service_events : list PyVal) :
  valid self ->
  forall fuel st r,
    misses_behind first
      (allowed_misses self * timedelta_seconds (interval_seconds self))
      (timedelta_seconds (interval_seconds self)) st ->
    main_loop fuel self now service_events st = Some r ->
    apart (allowed_misses self * timedelta_seconds (interval_seconds self)) first r.
Proof.
  intros Hv.
  induction fuel as [| fuel IH]; intros st r Hin H; cbn [main_loop] in H.
  - destruct (_ <=? _)%nat; [discriminate |]. injection H as <-. apply Hin.
  - destruct (_ <=? _)%nat; [| injection H as <-; apply Hin].
    rewrite (branch_of_valid _ _ _ Hv) in H.
    destruct (slot_step _ _ _ _ _) as [[st' stop] |] eqn:Estep; [| discriminate].
    pose proof (slot_step_behind self now first service_events Hv _ _ _ _ Hin Estep)
      as Hin'.
    destruct stop.
    + injection H as <-. apply Hin'.
    + eapply IH; eassumption.
Qed.

(** X10.  The first alert of a service is at least [allowed_misses]
    intervals after its first event, and every later alert at least
    [allowed_misses] intervals after the one before. *)
Theorem alerts_allowed_misses_apart (self : HeartbeatMonitor) (now : Z)
    (first : PyVal) (rest : list PyVal) :
  valid self ->
  forallb has_timestamp (first :: rest) = true ->
  exists alert_times,
    terminates_with
      (fun fuel => detect_missed_heartbeats fuel self now (first :: rest)) alert_times /\
    apart (timedelta_seconds (allowed_misses self * interval_seconds self))
          (event_time first) alert_times.
Proof.
  intros Hv _.
  destruct (detect_total self now (first :: rest) Hv) as [r [n Hn]].
  exists r. split; [exists n; exact Hn |].
  specialize (Hn n (Nat.le_refl n)). unfold detect_missed_heartbeats in Hn.
  replace (timedelta_seconds (allowed_misses self * interval_seconds self))
    with (allowed_misses self * timedelta_seconds (interval_seconds self))
    by (unfold timedelta_seconds; lia).
  eapply (main_loop_behind self now (event_time first) (first :: rest) Hv); [| exact Hn].
  unfold misses_behind. simpl. repeat split; lia.
Qed.

(** *** Alerts are on the grid of the events *)

Lemma on_grid_step (service_events : list PyVal) (step least t : Z) :
  on_grid service_events step least t ->
  on_grid service_events step (least + 1) (t + step).
Proof.
  intros (e & k & He & Hk & ->). exists e, (k + 1). repeat split; [exact He | lia | lia].
Qed.

Lemma on_grid_weaken (service_events : list PyVal) (step least least' t : Z) :
  least' <= least ->
  on_grid service_events step least t -> on_grid service_events step least' t.
Proof.
  intros Hle (e & k & He & Hk & ->). exists e, k. repeat split; [exact He | lia].
Qed.

Lemma on_grid_event (service_events : list PyVal) (step : Z) (i : nat) :
  (i < List.length service_events)%nat ->
  on_grid service_events step 0 (timestamp_at service_events i).
Proof.
  intros Hi. exists (nth i service_events PyNone), 0.
  repeat split; [apply nth_In; exact Hi | lia | unfold timestamp_at; lia].
Qed.

Lemma count_miss_grid (self : HeartbeatMonitor) (service_events : list PyVal)
    (step : Z) (st : DetectorState) :
  on_grid service_events step 1 (current_expected st) ->
  Forall (on_grid service_events step 1) (alerts st) ->
  on_grid service_events step 0 (current_expected (count_miss self st)) /\
  Forall (on_grid service_events step 1) (alerts (count_miss self st)).
Proof.
  intros Hce Hall. rewrite count_miss_current_expected.
  split; [eapply on_grid_weaken; [| exact Hce]; lia |].
  unfold count_miss. destruct (_ >=? _); simpl; [| exact Hall].
  apply Forall_app. split; [exact Hall |]. constructor; [exact Hce | constructor].
Qed.

Lemma extrapolate_grid (self : HeartbeatMonitor) (now : Z) (service_events : list PyVal) :
  forall fuel st st',
    on_grid service_events (timedelta_seconds (interval_seconds self)) 0
            (current_expected st) ->
    Forall (on_grid service_events (timedelta_seconds (interval_seconds self)) 1)
           (alerts st) ->
    extrapolate fuel self now st = Some st' ->
    Forall (on_grid service_events (timedelta_seconds (interval_seconds self)) 1)
           (alerts st').
Proof.
  induction fuel as [| fuel IH]; intros st st' Hce Hall H; cbn [extrapolate] in H.
  - destruct (_ <? _); [discriminate |]. injection H as <-. exact Hall.
  - destruct (_ <? _); [| injection H as <-; exact Hall].
    destruct (Qltb _ _); [| injection H as <-; exact Hall].
    match type of H with extrapolate _ _ _ (count_miss _ ?adv) = _ =>
      destruct (count_miss_grid self service_events
                  (timedelta_seconds (interval_seconds self)) adv) as [Hce' Hall']
    end; [simpl; apply (on_grid_step _ _ 0); exact Hce | exact Hall |].
    eapply IH; eassumption.
Qed.

Lemma slot_step_grid (self : HeartbeatMonitor) (now : Z) (service_events : list PyVal) :
  forall fuel st st' stop,
    on_grid service_events (timedelta_seconds (interval_seconds self)) 0
            (current_expected st) ->
    Forall (on_grid service_events (timedelta_seconds (interval_seconds self)) 1)
           (alerts st) ->
    slot_step fuel self now service_events st = Some (st', stop) ->
    on_grid service_events (timedelta_seconds (interval_seconds self)) 0
            (current_expected st') /\
    Forall (on_grid service_events (timedelta_seconds (interval_seconds self)) 1)
           (alerts st').
Proof.
  intros fuel st st' stop Hce Hall H. unfold slot_step in H.
  destruct (scan_slot fuel self service_events _) as [[found scanned] |] eqn:Escan;
    [| discriminate].
  apply scan_slot_alerts in Escan. simpl in Escan. destruct Escan as (Ha & Hf & Ht).
  assert (Hcounted :
            on_grid service_events (timedelta_seconds (interval_seconds self)) 0
              (current_expected (if found then scanned else count_miss self scanned)) /\
            Forall (on_grid service_events (timedelta_seconds (interval_seconds self)) 1)
              (alerts (if found then scanned else count_miss self scanned))).
  { destruct found.
    - destruct (Ht eq_refl) as (_ & i & Hi & ->). rewrite Ha.
      split; [apply on_grid_event; exact Hi | exact Hall].
    - destruct (Hf eq_refl) as (Hce' & _).
      apply count_miss_grid; [| rewrite Ha; exact Hall].
      rewrite Hce'. apply (on_grid_step _ _ 0). exact Hce. }
  destruct Hcounted as [Hce1 Hall1].
  destruct (_ <=? _)%nat.
  - destruct (Qltb _ _).
    + destruct (extrapolate _ _ _ _) as [final |] eqn:Eext; [| discriminate].
      injection H as <- <-.
      split; [| eapply extrapolate_grid; eassumption].
      clear - Eext Hce1.
      revert Eext Hce1.
      generalize (if found then scanned else count_miss self scanned) as st.
      induction fuel as [| fuel IH]; intros st H Hce; cbn [extrapolate] in H.
      * destruct (_ <? _); [discriminate |]. injection H as <-. exact Hce.
      * destruct (_ <? _); [| injection H as <-; exact Hce].
        destruct (Qltb _ _).
        -- eapply IH; [exact H |]. rewrite count_miss_current_expected. simpl.
           eapply on_grid_weaken; [| apply (on_grid_step _ _ 0); exact Hce]. lia.
        -- injection H as <-. simpl.
           eapply on_grid_weaken; [| apply (on_grid_step _ _ 0); exact Hce]. lia.
    + injection H as <- <-. split; assumption.
  - injection H as <- <-. split; assumption.
Qed.

Lemma main_loop_grid (self : HeartbeatMonitor) (now : Z) (service_events : list PyVal) :
  forall fuel st r,
    on_grid service_events (timedelta_seconds (interval_seconds self)) 0
            (current_expected st) ->
    Forall (on_grid service_events (timedelta_seconds (interval_seconds self)) 1)
           (alerts st) ->
    main_loop fuel self now service_events st = Some r ->
    Forall (on_grid service_events (timedelta_seconds (interval_seconds self)) 1) r.
Proof.
  induction fuel as [| fuel IH]; intros st r Hce Hall H; cbn [main_loop] in H.
  - destruct (_ <=? _)%nat; [discriminate |]. injection H as <-. exact Hall.
  - destruct (_ <=? _)%nat; [| injection H as <-; exact Hall].
    unfold branch_of in H.
    destruct (large_gap self (current_expected st)).
    + destruct (Nat.ltb_spec (event_index st) (List.length service_events)) as [Hlt | Hge].
      * eapply IH; [| | exact H]; simpl; [apply on_grid_event; exact Hlt | exact Hall].
      * destruct (slot_step _ _ _ _ _) as [[st' stop] |] eqn:Estep; [| discriminate].
        destruct (slot_step_grid _ _ _ _ _ _ _ Hce Hall Estep) as [Hce' Hall'].
        destruct stop; [injection H as <-; exact Hall' | eapply IH; eassumption].
    + destruct (slot_step _ _ _ _ _) as [[st' stop] |] eqn:Estep; [| discriminate].
      destruct (slot_step_grid _ _ _ _ _ _ _ Hce Hall Estep) as [Hce' Hall'].
      destruct stop; [injection H as <-; exact Hall' | eapply IH; eassumption].
Qed.

(** X13.  Every alert of a service is a whole number of intervals, at
    least one, after the instant of one of its events. *)
Theorem alerts_on_event_grid (self : HeartbeatMonitor) (now : Z)
    (service_events : list PyVal) :
  valid self ->
  forallb has_timestamp service_events = true ->
  exists alert_times,
    terminates_with
      (fun fuel => detect_missed_heartbeats fuel self now service_events) alert_times /\
    Forall (fun alert_time =>
              exists event k,
                In event service_events /\ 1 <= k /\
                alert_time = event_time event
                             + timedelta_seconds (k * interval_seconds self))
           alert_times.
Proof.
  intros Hv _.
  destruct (detect_total self now service_events Hv) as [r [n Hn]].
  exists r. split; [exists n; exact Hn |].
  specialize (Hn n (Nat.le_refl n)). unfold detect_missed_heartbeats in Hn.
  destruct service_events as [| first rest]; [injection Hn as <-; constructor |].
  assert (Hgrid : Forall (on_grid (first :: rest)
                            (timedelta_seconds (interval_seconds self)) 1) r).
  { eapply main_loop_grid; [| | exact Hn]; simpl; [| constructor].
    exists first, 0. repeat split; [left; reflexivity | lia | lia]. }
  eapply Forall_impl; [| exact Hgrid].
  intros t (e & k & He & Hk & ->). exists e, k.
  repeat split; [exact He | exact Hk | unfold timedelta_seconds; lia].
Qed.

(** *** Silence after regular heartbeats *)







(** *** Regular heartbeats *)





(** ** More on the grouping *)

Lemma unique_events_fresh (seen : list Z) (events : list PyVal) :
  Forall (fun e => existsb (Z.eqb (event_time e)) seen = false)
         (unique_events seen events).
Proof.
  revert seen. induction events as [| e rest IH]; intros seen; simpl; [constructor |].
  destruct (existsb (Z.eqb (event_time e)) seen) eqn:Eseen; [apply IH |].
  constructor; [exact Eseen |].
  eapply Forall_impl; [| apply (IH (event_time e :: seen))].
  simpl. intros x Hx. apply orb_false_iff in Hx. apply Hx.
Qed.

Lemma unique_events_strict (seen : list Z) (events : list PyVal) :
  key_sorted event_time events ->
  StronglySorted Z.lt (map event_time (unique_events seen events)).
Proof.
  unfold key_sorted. intros Hs. revert seen.
  induction Hs as [| e rest Hs IH Hall]; intros seen; simpl; [constructor |].
  destruct (existsb _ _); [apply IH |].
  simpl. constructor; [apply IH |].
  apply Forall_map.
  pose proof (unique_events_fresh (event_time e :: seen) rest) as Hfresh.
  rewrite Forall_forall in *. intros x Hx.
  specialize (Hfresh x Hx). simpl in Hfresh. apply orb_false_iff in Hfresh.
  destruct Hfresh as [Hne _]. apply Z.eqb_neq in Hne.
  specialize (Hall x (unique_events_In _ _ _ Hx)). simpl in Hall. lia.
Qed.

(** Of the events with one instant the removal of duplicates keeps the
    first. *)
Lemma unique_events_filter (seen : list Z) (events : list PyVal) (t : Z) :
  filter (fun e => event_time e =? t) (unique_events seen events) =
  if existsb (Z.eqb t) seen then []
  else firstn 1 (filter (fun e => event_time e =? t) events).
Proof.
  revert seen. induction events as [| e rest IH]; intros seen; simpl.
  - destruct (existsb _ _); reflexivity.
  - destruct (existsb (Z.eqb (event_time e)) seen) eqn:Eseen.
    + rewrite IH. destruct (Z.eqb_spec (event_time e) t) as [Heq | Hne]; [| reflexivity].
      rewrite <- Heq, Eseen. reflexivity.
    + simpl. rewrite IH. simpl.
      destruct (Z.eqb_spec (event_time e) t) as [Heq | Hne].
      * rewrite <- Heq, Eseen, Z.eqb_refl. reflexivity.
      * destruct (Z.eqb_spec t (event_time e)) as [Heq' | _]; [congruence |].
        reflexivity.
Qed.

Lemma services_get_map (name : string) (f : list PyVal -> list PyVal)
    (services : list (string * list PyVal)) :
  f [] = [] ->
  services_get name
    (map (fun entry : string * list PyVal => (fst entry, f (snd entry))) services) =
  f (services_get name services).
Proof.
  intros Hf. induction services as [| [k evs] rest IH]; simpl; [symmetry; exact Hf |].
  destruct (String.eqb k name); [reflexivity | exact IH].
Qed.


(** X5.  [sort_events_by_service] returns pairwise distinct service
    names, each with a timeline that is not empty, whose instants are
    strictly increasing, and whose events are events of the input that
    pass [validate_event] under that name. *)
Theorem sort_events_by_service_timelines (self : HeartbeatMonitor) (now : Z)
    (events : list PyVal) :
  NoDup (map fst (sort_events_by_service self now events)) /\
  Forall (fun entry : string * list PyVal =>
            snd entry <> [] /\
            StronglySorted Z.lt (map event_time (snd entry)) /\
            Forall (fun e => In e events /\
                             validate_event self now e = true /\
                             service_name_of e = fst entry) (snd entry))
         (sort_events_by_service self now events).
Proof.
  destruct (sort_events_by_service_entries self now events) as [Hnd Hall].
  split; [exact Hnd |].
  rewrite Forall_forall in *. intros [name timeline] Hin.
  destruct (Hall _ Hin) as ((Hne & Hevs) & _).
  unfold sort_events_by_service in Hin. apply in_map_iff in Hin.
  destruct Hin as ([name' g] & Heq & Hg). simpl in Heq. injection Heq as -> <-.
  destruct (group_events_entry self now events _ g Hg) as [Hevents _].
  simpl. split; [exact Hne |]. split.
  - apply unique_events_strict, sort_by_sorted.
  - rewrite Forall_forall. intros e He.
    destruct (Hevs e He) as [Hvalid Hname]. split; [| split; assumption].
    apply unique_events_In in He.
    apply (Permutation_in _ (Permutation_sym (sort_by_perm event_time g))) in He.
    rewrite Hevents in He. unfold events_of in He. apply filter_In in He. apply He.
Qed.

(** The timeline of a service, as [sort_events_by_service] builds it. *)
Lemma sort_events_by_service_get (self : HeartbeatMonitor) (now : Z)
    (events : list PyVal) (name : string) :
  services_get name (sort_events_by_service self now events) =
    unique_events [] (sort_by event_time (events_of self now name events)) /\
  (In name (map fst (sort_events_by_service self now events)) <->
   events_of self now name events <> []).
Proof.
  destruct (group_events_spec self now events [] (NoDup_nil _) (Forall_nil _))
    as (Hnd & Hne & Hget).
  split.
  - unfold sort_events_by_service.
    rewrite (services_get_map name (fun evs => unique_events [] (sort_by event_time evs)))
      by reflexivity.
    rewrite Hget. reflexivity.
  - unfold sort_events_by_service. rewrite map_map. simpl. split.
    + intros Hin. apply in_map_iff in Hin. destruct Hin as ([k g] & Hk & Hg).
      simpl in Hk. subst k.
      destruct (group_events_entry self now events name g Hg) as [<- Hg']. exact Hg'.
    + intros Hevs. specialize (Hget name). simpl in Hget.
      revert Hget Hevs. generalize (events_of self now name events) as evs.
      generalize (group_events self now events []) as services.
      induction services as [| [k g] rest IH]; intros evs Hget Hevs; simpl in *.
      * congruence.
      * destruct (String.eqb_spec k name) as [-> | _];
          [left; reflexivity | right; eapply IH; eassumption].
Qed.

(** X9.  The timeline under a service name is made from the validated
    events of that name alone: it is these events, in the order of the
    input, sorted by instant and freed of duplicates.  A name with no
    such event has no timeline. *)
Theorem sort_events_by_service_lookup (self : HeartbeatMonitor) (now : Z)
    (events : list PyVal) (name : string) :
  services_get name (sort_events_by_service self now events) =
    unique_events [] (sort_by event_time (events_of self now name events)) /\
  (In name (map fst (sort_events_by_service self now events)) <->
   events_of self now name events <> []).
Proof.
  exact (sort_events_by_service_get self now events name).
Qed.

(** X7.  Of the validated events of a service that have the same
    instant, the timeline keeps the one that comes first in the input,
    and only that one. *)
Theorem duplicates_keep_first (self : HeartbeatMonitor) (now : Z)
    (events : list PyVal) (name : string) (t : Z) :
  filter (fun e => event_time e =? t)
         (services_get name (sort_events_by_service self now events)) =
  firstn 1 (filter (fun e => event_time e =? t) (events_of self now name events)).
Proof.
  destruct (group_events_spec self now events [] (NoDup_nil _) (Forall_nil _))
    as (_ & _ & Hget).
  unfold sort_events_by_service.
  rewrite (services_get_map name (fun evs => unique_events [] (sort_by event_time evs)))
    by reflexivity.
  rewrite Hget. simpl.
  rewrite unique_events_filter. simpl.
  rewrite (sort_by_stable event_time t). reflexivity.
Qed.


(** X4.  An event that passes [validate_event] at one clock reading
    passes it at every later one. *)
Theorem validate_event_stays_valid (self : HeartbeatMonitor) (now now' : Z)
    (event : PyVal) :
  now <= now' ->
  validate_event self now event = true ->
  validate_event self now' event = true.
Proof.
  intros Hle Hv.
  destruct (validate_event self now' event) eqn:E; [reflexivity |].
  rewrite (validate_event_later self now now' event Hle Hv) in E. discriminate E.
Qed.

(** ** More on [monitor_heartbeats] *)





Lemma filter_alerts_of_service (name k : string) (alert_times : list Z) :
  filter (fun a => String.eqb (service a) k)
         (map (fun alert_time =>
                 {| service := name; alert_at := strftime_seconds alert_time |})
              alert_times) =
  if String.eqb name k
  then map (fun alert_time =>
              {| service := name; alert_at := strftime_seconds alert_time |})
           alert_times
  else [].
Proof.
  induction alert_times as [| t rest IH]; simpl.
  - destruct (String.eqb name k); reflexivity.
  - rewrite IH. destruct (String.eqb name k); reflexivity.
Qed.

Lemma collect_alerts_absent (self : HeartbeatMonitor) (now : Z) (fuel : nat) (k : string) :
  forall services all_alerts,
    collect_alerts fuel self now services = Some all_alerts ->
    ~ In k (map fst services) ->
    filter (fun a => String.eqb (service a) k) all_alerts = [].
Proof.
  induction services as [| [name tl] rest IH]; intros all_alerts H Hnotin; simpl in H.
  - injection H as <-. reflexivity.
  - destruct (detect_missed_heartbeats fuel self now tl) as [times |]; [| discriminate].
    destruct (collect_alerts fuel self now rest) as [more |] eqn:Erest; [| discriminate].
    injection H as <-. rewrite filter_app, filter_alerts_of_service.
    destruct (String.eqb_spec name k) as [-> | _].
    + exfalso. apply Hnotin. left. reflexivity.
    + simpl. apply (IH more eq_refl). intros Hin. apply Hnotin. right. exact Hin.
Qed.

Lemma collect_alerts_of_service (self : HeartbeatMonitor) (now : Z) (fuel : nat) :
  forall services all_alerts,
    collect_alerts fuel self now services = Some all_alerts ->
    NoDup (map fst services) ->
    forall k tl,
      In (k, tl) services ->
      exists alert_times,
        detect_missed_heartbeats fuel self now tl = Some alert_times /\
        filter (fun a => String.eqb (service a) k) all_alerts =
        map (fun alert_time =>
               {| service := k; alert_at := strftime_seconds alert_time |})
            alert_times.
Proof.
  induction services as [| [name tl'] rest IH]; intros all_alerts H Hnd k tl Hin;
    [destruct Hin |].
  simpl in H.
  destruct (detect_missed_heartbeats fuel self now tl') as [times |] eqn:Edet;
    [| discriminate].
  destruct (collect_alerts fuel self now rest) as [more |] eqn:Erest; [| discriminate].
  injection H as <-. rewrite filter_app, filter_alerts_of_service.
  inversion Hnd as [| ? ? Hnotin Hnd']; subst.
  destruct Hin as [Heq | Hin].
  - injection Heq as -> ->. rewrite String.eqb_refl.
    exists times. split; [exact Edet |].
    rewrite (collect_alerts_absent self now fuel k rest more Erest Hnotin), app_nil_r.
    reflexivity.
  - destruct (String.eqb_spec name k) as [-> | _].
    + exfalso. apply Hnotin. apply (in_map fst) in Hin. exact Hin.
    + simpl. apply (IH more eq_refl Hnd' k tl Hin).
Qed.


(** ** The route [process_heartbeats] *)


Lemma service_stats_loop_mono (monitor : HeartbeatMonitor) (now : Z) :
  forall services_events service_stats fuel fuel' r,
    (fuel <= fuel')%nat ->
    service_stats_loop fuel monitor now services_events service_stats = Some r ->
    service_stats_loop fuel' monitor now services_events service_stats = Some r.
Proof.
  induction services_events as [| [name evs] rest IH];
    intros service_stats fuel fuel' r Hle H; simpl in *; [exact H |].
  destruct (detect_missed_heartbeats fuel monitor now evs) as [service_alerts |] eqn:Edet;
    [| discriminate].
  rewrite (detect_mono monitor now evs fuel fuel' service_alerts Hle Edet).
  apply (IH _ fuel fuel' r Hle H).
Qed.


Lemma process_heartbeats_mono (now_alerts now_stats now_count : Z) (events : list PyVal)
    (interval allowed_misses page page_size : Z) :
  forall fuel fuel' r,
    (fuel <= fuel')%nat ->
    process_heartbeats fuel now_alerts now_stats now_count events
                       interval allowed_misses page page_size = Some r ->
    process_heartbeats fuel' now_alerts now_stats now_count events
                       interval allowed_misses page page_size = Some r.
Proof.
  intros fuel fuel' r Hle. unfold process_heartbeats.
  destruct (interval <=? 0); [trivial |].
  destruct (interval >? 3600); [trivial |].
  destruct (allowed_misses <=? 0); [trivial |].
  destruct (allowed_misses >? 10); [trivial |].
  destruct ((page <? 1) || (page_size <? 1)); [trivial |].
  destruct (init_default interval allowed_misses) as [monitor | msg]; [| trivial].
  destruct (monitor_heartbeats fuel monitor now_alerts (PyList events))
    as [all_alerts |] eqn:Emon; [| discriminate].
  rewrite (monitor_heartbeats_mono monitor now_alerts (PyList events)
             fuel fuel' all_alerts Hle Emon).
  destruct (service_stats_loop fuel monitor now_stats
              (sort_events_by_service monitor now_stats events) [])
    as [service_stats |] eqn:Estats; [| discriminate].
  rewrite (service_stats_loop_mono monitor now_stats _ _ fuel fuel' service_stats
             Hle Estats).
  trivial.
Qed.

Lemma dict_set_fresh {V : Type} (d : list (string * V)) (key : string) (value : V) :
  ~ In key (map fst d) -> dict_set d key value = d ++ [(key, value)].
Proof.
  induction d as [| [k v] rest IH]; intros Hfresh; [reflexivity |].
  simpl. destruct (String.eqb_spec k key) as [-> | _].
  - exfalso. apply Hfresh. left. reflexivity.
  - rewrite IH; [reflexivity |]. intros Hin. apply Hfresh. right. exact Hin.
Qed.

(** The statistics have one entry for each service, in the order of the
    services. *)
Lemma service_stats_loop_entries (monitor : HeartbeatMonitor) (now : Z) (fuel : nat) :
  forall services_events service_stats r,
    NoDup (map fst service_stats ++ map fst services_events) ->
    service_stats_loop fuel monitor now services_events service_stats = Some r ->
    exists entries,
      r = service_stats ++ entries /\
      Forall2 (stats_of fuel monitor now) services_events entries.
Proof.
  induction services_events as [| [name evs] rest IH]; intros service_stats r Hnd H;
    simpl in H.
  - injection H as <-. exists []. rewrite app_nil_r. split; constructor.
  - destruct (detect_missed_heartbeats fuel monitor now evs) as [service_alerts |] eqn:Edet;
      [| discriminate].
    assert (Hfresh : ~ In name (map fst service_stats)).
    { intros Hin. simpl in Hnd. apply NoDup_remove_2 in Hnd. apply Hnd.
      apply in_or_app. left. exact Hin. }
    rewrite dict_set_fresh in H by exact Hfresh.
    match type of H with
    | service_stats_loop _ _ _ _ ?d = _ =>
        destruct (IH d r) as (entries & -> & Hall); [| exact H |]
    end.
    { rewrite map_app. simpl. rewrite <- app_assoc. exact Hnd. }
    eexists. rewrite <- app_assoc. split; [reflexivity |].
    constructor; [| exact Hall].
    unfold stats_of. simpl. repeat split.
    exists service_alerts. split; [exact Edet | reflexivity].
Qed.

Lemma count_malformed_filter (monitor : HeartbeatMonitor) (now : Z) (events : list PyVal) :
  count_malformed monitor now events =
  Z.of_nat (List.length (filter (fun event => negb (validate_event monitor now event))
                                events)).
Proof.
  unfold count_malformed.
  enough (H : forall n,
             fold_left (fun malformed_count event =>
                          if negb (validate_event monitor now event)
                          then malformed_count + 1 else malformed_count) events n =
             n + Z.of_nat (List.length
                             (filter (fun event => negb (validate_event monitor now event))
                                     events)))
    by (rewrite H; lia).
  induction events as [| event rest IH]; intros n; simpl; [lia |].
  rewrite IH. destruct (validate_event monitor now event); simpl; lia.
Qed.

Lemma filter_partition_length {A : Type} (p : A -> bool) (l : list A) :
  (List.length (filter p l) + List.length (filter (fun x => negb (p x)) l))%nat =
  List.length l.
Proof.
  induction l as [| x rest IH]; [reflexivity |].
  simpl. destruct (p x); simpl; lia.
Qed.

Lemma filter_length_le {A : Type} (p q : A -> bool) (l : list A) :
  (forall x, p x = true -> q x = true) ->
  (List.length (filter p l) <= List.length (filter q l))%nat.
Proof.
  intros Hpq. induction l as [| x rest IH]; [simpl; lia |].
  simpl. destruct (p x) eqn:Ep.
  - rewrite (Hpq x Ep). simpl. lia.
  - destruct (q x); simpl; lia.
Qed.

Lemma services_append_held (services : list (string * list PyVal)) (name : string)
    (event : PyVal) :
  held (services_append services name event) = S (held services).
Proof.
  induction services as [| [k evs] rest IH]; [reflexivity |].
  simpl. destruct (String.eqb k name); simpl.
  - rewrite length_app. simpl. lia.
  - rewrite IH. lia.
Qed.

Lemma group_events_held (self : HeartbeatMonitor) (now : Z) (events : list PyVal) :
  forall services,
    held (group_events self now events services) =
    (held services + List.length (filter (validate_event self now) events))%nat.
Proof.
  unfold group_events. induction events as [| event rest IH]; intros services;
    simpl; [lia |].
  rewrite IH. destruct (validate_event self now event); simpl.
  - rewrite services_append_held. lia.
  - reflexivity.
Qed.

Lemma unique_events_length (seen : list Z) (events : list PyVal) :
  (List.length (unique_events seen events) <= List.length events)%nat.
Proof.
  revert seen. induction events as [| event rest IH]; intros seen; simpl; [lia |].
  destruct (existsb (Z.eqb (event_time event)) seen); simpl.
  - specialize (IH seen). lia.
  - specialize (IH (event_time event :: seen)). lia.
Qed.

Lemma sort_events_by_service_held (self : HeartbeatMonitor) (now : Z)
    (events : list PyVal) :
  (held (sort_events_by_service self now events) <=
   List.length (filter (validate_event self now) events))%nat.
Proof.
  unfold sort_events_by_service.
  pose proof (group_events_held self now events []) as Hheld. simpl in Hheld.
  rewrite <- Hheld. clear Hheld.
  induction (group_events self now events []) as [| [name evs] rest IH]; simpl; [lia |].
  pose proof (unique_events_length [] (sort_by event_time evs)) as Hu.
  rewrite <- (Permutation_length (sort_by_perm event_time evs)) in Hu. lia.
Qed.

Lemma stats_sum_app (field : ServiceStats.t -> Z)
    (d d' : list (string * ServiceStats.t)) :
  stats_sum field (d ++ d') = stats_sum field d + stats_sum field d'.
Proof.
  unfold stats_sum. induction d as [| entry rest IH]; simpl; lia.
Qed.

Lemma stats_of_sums (fuel : nat) (monitor : HeartbeatMonitor) (now : Z) :
  forall services entries,
    Forall2 (stats_of fuel monitor now) services entries ->
    map fst entries = map fst services /\
    stats_sum ServiceStats.totalEvents entries = Z.of_nat (held services) /\
    forall all_alerts,
      collect_alerts fuel monitor now services = Some all_alerts ->
      stats_sum ServiceStats.alerts entries = Z.of_nat (List.length all_alerts).
Proof.
  induction 1 as [| [name evs] [name' stats] services entries Hof Hall IH].
  - repeat split. intros all_alerts H. injection H as <-. reflexivity.
  - destruct IH as (IHnames & IHevents & IHalerts).
    destruct Hof as (Hname & Hevents & service_alerts & Hdet & Halerts).
    simpl in Hname, Hevents, Hdet, Halerts. subst name'.
    split; [simpl; rewrite IHnames; reflexivity |].
    split.
    + unfold stats_sum in *. simpl. rewrite IHevents, Hevents. lia.
    + intros all_alerts H. simpl in H. rewrite Hdet in H.
      destruct (collect_alerts fuel monitor now services) as [more |]; [| discriminate].
      injection H as <-. rewrite length_app, length_map.
      unfold stats_sum in *. simpl. rewrite (IHalerts more eq_refl), Halerts. lia.
Qed.



(** X21.  In a response with status 200, when the clock does not go back
    between the grouping and the count of the malformed events:
    ['serviceStats'] has one entry for each service of the grouping, in
    its order, and ['totalServices'] counts them; every entry counts at
    least one event; and the malformed events together with the events
    counted under the services are at most the events of the request. *)
Theorem process_heartbeats_counts (fuel : nat) (now_alerts now_stats now_count : Z)
    (events : list PyVal) (interval allowed_misses page page_size : Z)
    (response : Response.t) :
  now_stats <= now_count ->
  process_heartbeats fuel now_alerts now_stats now_count events
                     interval allowed_misses page page_size =
    Some (Status200 response) ->
  NoDup (map fst (Response.serviceStats response)) /\
  Response.totalServices response =
    Z.of_nat (List.length (Response.serviceStats response)) /\
  Forall (fun entry => 1 <= ServiceStats.totalEvents (snd entry) /\
                       0 <= ServiceStats.alerts (snd entry))
         (Response.serviceStats response) /\
  0 <= Response.malformedCount response /\
  Response.malformedCount response
  + stats_sum ServiceStats.totalEvents (Response.serviceStats response)
  <= Response.totalEvents response /\
  Response.totalEvents response = Z.of_nat (List.length events).
Proof.
  intros Hclock H. unfold process_heartbeats in H.
  destruct (interval <=? 0); [discriminate |].
  destruct (interval >? 3600); [discriminate |].
  destruct (allowed_misses <=? 0); [discriminate |].
  destruct (allowed_misses >? 10); [discriminate |].
  destruct ((page <? 1) || (page_size <? 1)); [discriminate |].
  destruct (init_default interval allowed_misses) as [monitor | msg]; [| discriminate].
  destruct (monitor_heartbeats fuel monitor now_alerts (PyList events))
    as [all_alerts |]; [| discriminate].
  destruct (service_stats_loop fuel monitor now_stats
              (sort_events_by_service monitor now_stats events) [])
    as [service_stats |] eqn:Estats; [| discriminate].
  destruct (paginate all_alerts page page_size) as [paginated_alerts pagination].
  injection H as <-.
  cbn [Response.serviceStats Response.totalServices Response.malformedCount
       Response.totalEvents Response.pagination totalAlerts].
  destruct (sort_events_by_service_entries monitor now_stats events) as [Hnd Hentries].
  destruct (service_stats_loop_entries monitor now_stats fuel
              (sort_events_by_service monitor now_stats events) [] _ Hnd Estats)
    as (entries & -> & Hof).
  cbn [app].
  destruct (stats_of_sums fuel monitor now_stats _ _ Hof) as (Hnames & Hsum & _).
  split; [rewrite Hnames; exact Hnd |].
  split; [rewrite <- (length_map fst entries), Hnames, length_map; reflexivity |].
  split.
  { clear Hnames Hsum Estats Hnd.
    induction Hof as [| [name evs] [name' stats] services entries Hone Hall IH];
      [constructor |].
    inversion Hentries as [| ? ? [[Hne _] _] Hrest]; subst.
    constructor; [| apply IH; exact Hrest].
    destruct Hone as (_ & Hevents & service_alerts & _ & Halerts).
    simpl in *. rewrite Hevents, Halerts.
    destruct evs; [exfalso; apply Hne; reflexivity | simpl; lia]. }
  rewrite Hsum, count_malformed_filter.
  pose proof (sort_events_by_service_held monitor now_stats events) as Hheld.
  pose proof (filter_partition_length (validate_event monitor now_stats) events) as Hpart.
  pose proof (filter_length_le
                (fun event => negb (validate_event monitor now_count event))
                (fun event => negb (validate_event monitor now_stats event))
                events) as Hle.
  assert (Hlater : forall x,
             negb (validate_event monitor now_count x) = true ->
             negb (validate_event monitor now_stats x) = true).
  { intros x Hx. destruct (validate_event monitor now_stats x) eqn:Ev; [| reflexivity].
    rewrite (validate_event_later monitor now_stats now_count x Hclock Ev) in Hx.
    discriminate. }
  specialize (Hle Hlater). lia.
Qed.

(** X22.  In a response with status 200 for which [monitor_heartbeats]
    and the statistics read the same clock value, ['totalAlerts'] is the
    sum of the ['alerts'] of the entries of ['serviceStats']. *)
Theorem process_heartbeats_alert_counts (fuel : nat) (now now_count : Z)
    (events : list PyVal) (interval allowed_misses page page_size : Z)
    (response : Response.t) :
  process_heartbeats fuel now now now_count events
                     interval allowed_misses page page_size =
    Some (Status200 response) ->
  totalAlerts (Response.pagination response) =
  stats_sum ServiceStats.alerts (Response.serviceStats response).
Proof.
  intros H. unfold process_heartbeats in H.
  destruct (interval <=? 0); [discriminate |].
  destruct (interval >? 3600); [discriminate |].
  destruct (allowed_misses <=? 0); [discriminate |].
  destruct (allowed_misses >? 10); [discriminate |].
  destruct ((page <? 1) || (page_size <? 1)); [discriminate |].
  destruct (init_default interval allowed_misses) as [monitor | msg]; [| discriminate].
  unfold monitor_heartbeats in H.
  destruct (collect_alerts fuel monitor now (sort_events_by_service monitor now events))
    as [all_alerts |] eqn:Ecollect; [| discriminate].
  destruct (service_stats_loop fuel monitor now
              (sort_events_by_service monitor now events) [])
    as [service_stats |] eqn:Estats; [| discriminate].
  unfold paginate in H. injection H as <-.
  cbn [Response.serviceStats Response.totalServices Response.malformedCount
       Response.totalEvents Response.pagination totalAlerts].
  destruct (sort_events_by_service_entries monitor now events) as [Hnd _].
  destruct (service_stats_loop_entries monitor now fuel
              (sort_events_by_service monitor now events) [] _ Hnd Estats)
    as (entries & -> & Hof).
  cbn [app].
  destruct (stats_of_sums fuel monitor now _ _ Hof) as (_ & _ & Halerts).
  rewrite (Halerts all_alerts Ecollect).
  rewrite <- (Permutation_length (sort_by_perm alert_at all_alerts)). reflexivity.
Qed.

(** ** The order of arrival of the events *)

Lemma same_instants_facts (l l' : list PyVal) :
  same_instants l l' ->
  List.length l = List.length l' /\
  (forall i, timestamp_at l i = timestamp_at l' i) /\
  event_time (last l PyNone) = event_time (last l' PyNone).
Proof.
  unfold same_instants. intros Hsame.
  assert (Hlast : forall evs, event_time (last evs PyNone) = last (map event_time evs) 0).
  { induction evs as [| e [| e' rest] IH]; [reflexivity | reflexivity |].
    change (last (e :: e' :: rest) PyNone) with (last (e' :: rest) PyNone).
    rewrite IH. reflexivity. }
  split; [| split].
  - rewrite <- (length_map event_time l), Hsame. apply length_map.
  - intros i. unfold timestamp_at.
    change 0 with (event_time PyNone) in *.
    rewrite <- (map_nth event_time l PyNone i), <- (map_nth event_time l' PyNone i).
    rewrite Hsame. reflexivity.
  - rewrite !Hlast, Hsame. reflexivity.
Qed.

Lemma scan_slot_instants (self : HeartbeatMonitor) (l l' : list PyVal) :
  same_instants l l' ->
  forall fuel st, scan_slot fuel self l st = scan_slot fuel self l' st.
Proof.
  intros Hsame. destruct (same_instants_facts l l' Hsame) as (Hlen & Hts & _).
  induction fuel as [| fuel IH]; intros st; cbn [scan_slot];
    rewrite Hlen; [reflexivity |].
  rewrite Hts, IH. reflexivity.
Qed.

Lemma slot_step_instants (self : HeartbeatMonitor) (now : Z) (l l' : list PyVal) :
  same_instants l l' ->
  forall fuel st, slot_step fuel self now l st = slot_step fuel self now l' st.
Proof.
  intros Hsame fuel st.
  destruct (same_instants_facts l l' Hsame) as (Hlen & _ & Hlast).
  unfold slot_step. rewrite (scan_slot_instants self l l' Hsame), Hlen, Hlast.
  reflexivity.
Qed.

Lemma main_loop_instants (self : HeartbeatMonitor) (now : Z) (l l' : list PyVal) :
  same_instants l l' ->
  forall fuel st, main_loop fuel self now l st = main_loop fuel self now l' st.
Proof.
  intros Hsame. destruct (same_instants_facts l l' Hsame) as (Hlen & Hts & _).
  induction fuel as [| fuel IH]; intros st; cbn [main_loop];
    rewrite Hlen; [reflexivity |].
  unfold branch_of, resynchronise. rewrite Hlen, Hts.
  rewrite (slot_step_instants self now l l' Hsame).
  destruct (large_gap self (current_expected st));
    [destruct (event_index st <? List.length l')%nat |];
    rewrite ?IH; try reflexivity;
    destruct (slot_step (S fuel) self now l' st) as [[st' [|]] |];
    rewrite ?IH; reflexivity.
Qed.

(** The alerts of a service depend on its timeline through the instants
    of the events only. *)
Lemma detect_instants (self : HeartbeatMonitor) (now : Z) (l l' : list PyVal) :
  same_instants l l' ->
  forall fuel,
    detect_missed_heartbeats fuel self now l = detect_missed_heartbeats fuel self now l'.
Proof.
  intros Hsame fuel. pose proof Hsame as Heq. unfold same_instants in Heq.
  destruct l as [| first rest], l' as [| first' rest']; try discriminate;
    [reflexivity |].
  unfold detect_missed_heartbeats.
  rewrite (main_loop_instants self now _ _ Hsame).
  simpl in Heq. injection Heq as -> _. reflexivity.
Qed.

Lemma strictly_sorted_unique (l l' : list Z) :
  StronglySorted Z.lt l -> StronglySorted Z.lt l' ->
  (forall t, In t l <-> In t l') -> l = l'.
Proof.
  intros Hl. revert l'. induction Hl as [| a rest Hs IH Hall]; intros l' Hl' Hsame.
  - destruct l' as [| b rest']; [reflexivity |].
    exfalso. apply (proj2 (Hsame b)). left. reflexivity.
  - destruct Hl' as [| b rest' Hs' Hall'].
    + exfalso. apply (proj1 (Hsame a)). left. reflexivity.
    + rewrite Forall_forall in Hall, Hall'.
      assert (Hab : a = b).
      { destruct (proj1 (Hsame a) (or_introl eq_refl)) as [Hba | Ha];
          [symmetry; exact Hba |].
        destruct (proj2 (Hsame b) (or_introl eq_refl)) as [Hab | Hb]; [exact Hab |].
        specialize (Hall b Hb). specialize (Hall' a Ha). lia. }
      subst b. f_equal. apply IH; [exact Hs' |].
      intros t. split; intros Ht.
      * destruct (proj1 (Hsame t) (or_intror Ht)) as [Heq | Hin]; [| exact Hin].
        subst t. specialize (Hall a Ht). lia.
      * destruct (proj2 (Hsame t) (or_intror Ht)) as [Heq | Hin]; [| exact Hin].
        subst t. specialize (Hall' a Ht). lia.
Qed.

Lemma unique_events_instants (seen : list Z) (events : list PyVal) (t : Z) :
  In t (map event_time (unique_events seen events)) <->
  In t (map event_time events) /\ ~ In t seen.
Proof.
  revert seen. induction events as [| event rest IH]; intros seen; simpl.
  - tauto.
  - destruct (existsb (Z.eqb (event_time event)) seen) eqn:Eseen.
    + rewrite IH. apply existsb_exists in Eseen. destruct Eseen as (u & Hu & Heq).
      apply Z.eqb_eq in Heq. subst u.
      split.
      * intros [Hin Hnot]. split; [right; exact Hin | exact Hnot].
      * intros [[Heq | Hin] Hnot]; [subst t; contradiction |].
        split; assumption.
    + simpl. rewrite IH. simpl.
      assert (Hnot : ~ In (event_time event) seen).
      { intros Hin. assert (Hex : existsb (Z.eqb (event_time event)) seen = true).
        { apply existsb_exists. exists (event_time event).
          split; [exact Hin | apply Z.eqb_refl]. }
        congruence. }
      destruct (Z.eq_dec (event_time event) t) as [Heq | Hne].
      * subst t. split; intros _; [split; [left; reflexivity | exact Hnot] |].
        left. reflexivity.
      * tauto.
Qed.

Lemma events_of_permutation (self : HeartbeatMonitor) (now : Z) (name : string)
    (events events' : list PyVal) :
  Permutation events events' ->
  forall e, In e (events_of self now name events) <->
            In e (events_of self now name events').
Proof.
  intros Hperm e. unfold events_of. rewrite !filter_In.
  split; intros [Hin Hp]; (split; [| exact Hp]).
  - apply (Permutation_in _ Hperm Hin).
  - apply (Permutation_in _ (Permutation_sym Hperm) Hin).
Qed.

(** The timelines of a service built from the same events in another
    order have the same instants. *)
Lemma timelines_same_instants (self : HeartbeatMonitor) (now : Z) (name : string)
    (events events' : list PyVal) :
  Permutation events events' ->
  same_instants (services_get name (sort_events_by_service self now events))
                (services_get name (sort_events_by_service self now events')).
Proof.
  intros Hperm. unfold same_instants.
  rewrite (proj1 (sort_events_by_service_get self now events name)).
  rewrite (proj1 (sort_events_by_service_get self now events' name)).
  apply strictly_sorted_unique;
    try (apply unique_events_strict, sort_by_sorted).
  intros t. rewrite !unique_events_instants.
  assert (Hin : forall evs,
             In t (map event_time (sort_by event_time (events_of self now name evs))) <->
             exists e, In e (events_of self now name evs) /\ event_time e = t).
  { intros evs. rewrite in_map_iff. split; intros (e & He & Hin); exists e.
    - split; [| exact He].
      apply (Permutation_in _ (Permutation_sym (sort_by_perm event_time _)) Hin).
    - split; [exact Hin |]. apply (Permutation_in _ (sort_by_perm event_time _) He). }
  rewrite !Hin.
  split; intros [(e & He & Ht) Hnot]; (split; [| exact Hnot]); exists e;
    (split; [| exact Ht]);
    apply (events_of_permutation self now name events events' Hperm e); exact He.
Qed.

Lemma Alert_eq_dec (a b : Alert) : {a = b} + {a <> b}.
Proof.
  decide equality; [apply Z.eq_dec | apply string_dec].
Qed.

Lemma count_occ_filter (p : Alert -> bool) (l : list Alert) (a : Alert) :
  count_occ Alert_eq_dec (filter p l) a =
  if p a then count_occ Alert_eq_dec l a else 0%nat.
Proof.
  induction l as [| b rest IH]; simpl.
  - destruct (p a); reflexivity.
  - destruct (p b) eqn:Eb; simpl; destruct (Alert_eq_dec b a) as [-> | Hne].
    + rewrite Eb, IH, Eb. reflexivity.
    + exact IH.
    + rewrite Eb in *. exact IH.
    + exact IH.
Qed.

Lemma permutation_by_service (l l' : list Alert) :
  (forall k, filter (fun a => String.eqb (service a) k) l =
             filter (fun a => String.eqb (service a) k) l') ->
  Permutation l l'.
Proof.
  intros Hsame. apply (Permutation_count_occ Alert_eq_dec). intros a.
  pose proof (count_occ_filter (fun b => String.eqb (service b) (service a)) l a) as Hl.
  pose proof (count_occ_filter (fun b => String.eqb (service b) (service a)) l' a) as Hl'.
  cbn beta in Hl, Hl'. rewrite String.eqb_refl in Hl, Hl'.
  rewrite <- Hl, <- Hl', Hsame. reflexivity.
Qed.

Lemma sorted_permutation_keys (l l' : list Alert) :
  key_sorted alert_at l -> key_sorted alert_at l' -> Permutation l l' ->
  map alert_at l = map alert_at l'.
Proof.
  intros Hl Hl' Hperm.
  assert (Hkeys : forall ks ks' : list Z,
             StronglySorted Z.le ks -> StronglySorted Z.le ks' ->
             Permutation ks ks' -> ks = ks').
  { clear. intros ks ks' Hs. revert ks'.
    induction Hs as [| a rest Hs IH Hall]; intros ks' Hs' Hperm.
    - apply Permutation_nil in Hperm. symmetry. exact Hperm.
    - destruct Hs' as [| b rest' Hs' Hall'].
      + apply Permutation_sym, Permutation_nil in Hperm. discriminate.
      + rewrite Forall_forall in Hall, Hall'.
        assert (Hab : a = b).
        { pose proof (Permutation_in a Hperm (or_introl eq_refl)) as Ha.
          pose proof (Permutation_in b (Permutation_sym Hperm) (or_introl eq_refl)) as Hb.
          destruct Ha as [Ha | Ha]; [symmetry; exact Ha |].
          destruct Hb as [Hb | Hb]; [exact Hb |].
          specialize (Hall b Hb). specialize (Hall' a Ha). lia. }
        subst b. f_equal. apply IH; [exact Hs' |].
        apply (Permutation_cons_inv Hperm). }
  apply Hkeys.
  - clear - Hl. unfold key_sorted in Hl.
    induction Hl as [| a rest Hs IH Hall]; simpl; constructor; [exact IH |].
    apply Forall_map. exact Hall.
  - clear - Hl'. unfold key_sorted in Hl'.
    induction Hl' as [| a rest Hs IH Hall]; simpl; constructor; [exact IH |].
    apply Forall_map. exact Hall.
  - apply Permutation_map. exact Hperm.
Qed.

Lemma collect_alerts_by_service (self : HeartbeatMonitor) (now : Z) (fuel : nat)
    (events : list PyVal) (all_alerts : list Alert) (k : string) :
  collect_alerts fuel self now (sort_events_by_service self now events) =
    Some all_alerts ->
  exists alert_times,
    detect_missed_heartbeats fuel self now
      (services_get k (sort_events_by_service self now events)) = Some alert_times /\
    filter (fun a => String.eqb (service a) k) all_alerts =
    map (fun alert_time =>
           {| service := k; alert_at := strftime_seconds alert_time |})
        alert_times.
Proof.
  intros Hrun.
  destruct (sort_events_by_service_entries self now events) as [Hnd _].
  destruct (in_dec string_dec k (map fst (sort_events_by_service self now events)))
    as [Hin | Hnotin].
  - apply in_map_iff in Hin. destruct Hin as ([k' tl] & Hk & Hin).
    simpl in Hk. subst k'.
    rewrite (services_get_In _ k tl Hnd Hin).
    apply (collect_alerts_of_service self now fuel _ _ Hrun Hnd k tl Hin).
  - exists []. split.
    + assert (Hget : services_get k (sort_events_by_service self now events) = []).
      { revert Hnotin.
        generalize (sort_events_by_service self now events) as services.
        induction services as [| [k' tl] rest IH]; intros Hnotin; [reflexivity |].
        simpl in *. destruct (String.eqb_spec k' k) as [-> | _]; [tauto |].
        apply IH. tauto. }
      rewrite Hget. reflexivity.
    + apply (collect_alerts_absent self now fuel k _ _ Hrun Hnotin).
Qed.

(** X16.  The order in which the events arrive does not matter: from the
    same events in another order, [monitor_heartbeats] returns the same
    alerts, with the same alert times one by one (two alerts of the same
    second may change places). *)
Theorem monitor_heartbeats_arrival_order (self : HeartbeatMonitor) (now : Z)
    (events events' : list PyVal) :
  valid self -> Permutation events events' ->
  exists out out',
    terminates_with (fun fuel => monitor_heartbeats fuel self now (PyList events)) out /\
    terminates_with (fun fuel => monitor_heartbeats fuel self now (PyList events')) out' /\
    Permutation out out' /\
    map alert_at out = map alert_at out'.
Proof.
  intros Hv Hperm.
  destruct (monitor_heartbeats_total self now events Hv)
    as (all_alerts & [n Hcollect] & Hout).
  destruct (monitor_heartbeats_total self now events' Hv)
    as (all_alerts' & [n' Hcollect'] & Hout').
  exists (sort_by alert_at all_alerts), (sort_by alert_at all_alerts').
  split; [exact Hout |]. split; [exact Hout' |].
  assert (Hall : Permutation all_alerts all_alerts').
  { apply permutation_by_service. intros k.
    pose proof (Hcollect (Nat.max n n') (Nat.le_max_l n n')) as Hrun.
    pose proof (Hcollect' (Nat.max n n') (Nat.le_max_r n n')) as Hrun'.
    destruct (collect_alerts_by_service self now _ events all_alerts k Hrun)
      as (times & Hdet & ->).
    destruct (collect_alerts_by_service self now _ events' all_alerts' k Hrun')
      as (times' & Hdet' & ->).
    rewrite (detect_instants self now _ _
               (timelines_same_instants self now k events events' Hperm)) in Hdet.
    rewrite Hdet in Hdet'. injection Hdet' as <-. reflexivity. }
  assert (Hsorted : Permutation (sort_by alert_at all_alerts)
                                (sort_by alert_at all_alerts')).
  { eapply Permutation_trans;
      [apply Permutation_sym, sort_by_perm |].
    eapply Permutation_trans; [exact Hall | apply sort_by_perm]. }
  split; [exact Hsorted |].
  apply sorted_permutation_keys; [apply sort_by_sorted | apply sort_by_sorted |].
  exact Hsorted.
Qed.

End Monitor.


(** ** The claims on the inputs of the repository's tests *)

Lemma monitor_60_3_valid : valid monitor_60_3.
Proof.
  unfold valid, in_range, monitor_60_3. simpl.
  repeat split; try lia; try reflexivity; unfold Qle; simpl; lia.
Qed.

(** The constructor builds the monitor of the tests. *)
Lemma init_default_60_3 :
  init_default 60 3 = Returns monitor_60_3 /\ valid monitor_60_3.
Proof.
  split.
  - apply (proj1 (proj2 (init_fails_iff_out_of_range 60 3 (1 # 10)%Q 300 10))).
    unfold in_range. repeat split; try lia; unfold Qle; simpl; lia.
  - apply (proj2 (proj2 (init_fails_iff_out_of_range 60 3 (1 # 10)%Q 300 10))).
    reflexivity.
Defined.

(** A well-formed event one day and an hour ahead of the clock is
    rejected, whatever [future_limit] is. *)
Lemma validate_event_sample :
  validate_event sample_iso (with_future_limit monitor_60_3 0)
    (t1000 - timedelta_hours 25) single_event =
  validate_event sample_iso (with_future_limit monitor_60_3 1000000)
    (t1000 - timedelta_hours 25) single_event /\
  validate_event sample_iso monitor_60_3 (t1000 - timedelta_hours 25) single_event = false.
Proof.
  destruct (validate_event_future_limit_inert sample_iso monitor_60_3
              (t1000 - timedelta_hours 25) single_event) as [Hinert Hrule].
  split; [apply Hinert |].
  apply (Hrule t1000); [| reflexivity].
  exists [("service"%string, PyStr "single");
          ("timestamp"%string, PyStr "2025-08-04T10:00:00Z")],
         "single"%string, (PyStr "2025-08-04T10:00:00Z").
  repeat split. simpl. lia.
Defined.

Lemma large_gap_branch_sample :
  large_gap monitor_60_3 t1000 = false /\
  branch_of monitor_60_3 scenario_c
    {| current_expected := t1000; consecutive_misses := 0;
       event_index := 1; alerts := [] |} = ScanSlot.
Proof.
  apply (large_gap_branch_unreachable monitor_60_3 scenario_c
           {| current_expected := t1000; consecutive_misses := 0;
              event_index := 1; alerts := [] |}); simpl; lia.
Defined.

(** Scenario C: two events two hours apart. *)
Lemma scenario_c_terminates :
  exists alert_times,
    terminates_with
      (fun fuel => detect_missed_heartbeats sample_iso fuel monitor_60_3 long_after
                     scenario_c)
      alert_times.
Proof.
  apply (detect_missed_heartbeats_terminates sample_iso monitor_60_3 long_after
           scenario_c).
  - exact monitor_60_3_valid.
  - reflexivity.
Defined.

Lemma scenario_a_strictly_increasing :
  exists alert_times,
    terminates_with
      (fun fuel => detect_missed_heartbeats sample_iso fuel monitor_60_3 long_after
                     scenario_a)
      alert_times /\
    StronglySorted Z.lt alert_times.
Proof.
  apply (alert_times_strictly_increasing sample_iso monitor_60_3 long_after scenario_a).
  - exact monitor_60_3_valid.
  - reflexivity.
Defined.





Lemma scenario_a_alert_after_first_event :
  exists out,
    terminates_with
      (fun fuel => monitor_heartbeats sample_iso fuel monitor_60_3 long_after
                     (PyList scenario_a)) out /\
    forall a, In a out ->
      exists first,
        In first scenario_a /\
        validate_event sample_iso monitor_60_3 long_after first = true /\
        service_name_of first = service a /\
        (forall e, In e scenario_a ->
                   validate_event sample_iso monitor_60_3 long_after e = true ->
                   service_name_of e = service a ->
                   event_time sample_iso first <= event_time sample_iso e) /\
        event_time sample_iso first <= timedelta_seconds (alert_at a).
Proof.
  apply (alert_not_before_first_event sample_iso monitor_60_3 long_after scenario_a).
  exact monitor_60_3_valid.
Defined.



Lemma scenario_a_regrouped :
  sort_events_by_service sample_iso monitor_60_3 (long_after + 1)
    (List.concat
       (map snd (sort_events_by_service sample_iso monitor_60_3 long_after
                   (scenario_a ++ tie_events)))) =
  sort_events_by_service sample_iso monitor_60_3 long_after (scenario_a ++ tie_events).
Proof.
  apply (sort_events_by_service_idempotent sample_iso monitor_60_3 long_after
           (long_after + 1) (scenario_a ++ tie_events)).
  lia.
Defined.

(** ** The tests of the repository, read long after their events *)

Example test_basic_functionality :
  monitor_heartbeats sample_iso 10 monitor_60_3 long_after (PyList scenario_a) =
  Some [{| service := "email"; alert_at := 1754301600 + 300 |}].
Proof. vm_compute. reflexivity. Qed.

Example test_no_alerts :
  monitor_heartbeats sample_iso 10 monitor_60_3 long_after (PyList scenario_b) = Some [].
Proof. vm_compute. reflexivity. Qed.

Example test_multiple_services :
  monitor_heartbeats sample_iso 10 monitor_60_3 long_after (PyList multiple_services) =
  Some [{| service := "email"; alert_at := 1754301600 + 180 |}].
Proof. vm_compute. reflexivity. Qed.

Example test_malformed_events :
  sort_events_by_service sample_iso monitor_60_3 long_after malformed_events =
    [("valid"%string, [heartbeat "valid" "2025-08-04T10:00:00Z"])] /\
  monitor_heartbeats sample_iso 10 monitor_60_3 long_after (PyList malformed_events) =
    Some [].
Proof. split; vm_compute; reflexivity. Qed.

Example test_duplicate_events :
  sort_events_by_service sample_iso monitor_60_3 long_after duplicate_events =
    [("duplicate"%string,
      [heartbeat "duplicate" "2025-08-04T10:00:00Z";
       heartbeat "duplicate" "2025-08-04T10:01:00Z"])] /\
  monitor_heartbeats sample_iso 10 monitor_60_3 long_after (PyList duplicate_events) =
    Some [].
Proof. split; vm_compute; reflexivity. Qed.

Example test_large_time_gaps :
  option_map (@List.length Alert)
    (monitor_heartbeats sample_iso 200 monitor_60_3 long_after (PyList scenario_c)) =
  Some 39%nat.
Proof. vm_compute. reflexivity. Qed.

Example test_parameter_validation :
  init_default 60 3 = Returns monitor_60_3 /\
  init_default 0 3 = ValueError "interval_seconds must be positive" /\
  init_default (-1) 3 = ValueError "interval_seconds must be positive" /\
  init_default 60 0 = ValueError "allowed_misses must be positive" /\
  init_default 60 (-1) = ValueError "allowed_misses must be positive" /\
  init_default 3601 3 = ValueError "interval_seconds cannot exceed 3600 seconds" /\
  init_default 60 11 = ValueError "allowed_misses cannot exceed 10".
Proof. repeat split. Qed.

Example test_edge_cases :
  monitor_heartbeats sample_iso 10 monitor_60_3 long_after (PyList []) = Some [] /\
  monitor_heartbeats sample_iso 10 monitor_60_3 long_after (PyList [single_event]) =
    Some [] /\
  monitor_heartbeats sample_iso 10 monitor_60_3 long_after (PyStr "not a list") = Some [].
Proof. repeat split. Qed.

(** ** Pagination *)

Lemma slice_index_nonneg (len i : Z) :
  0 <= i -> slice_index len i = Z.min i len.
Proof.
  intros Hi. unfold slice_index.
  destruct (Z.ltb_spec i 0); [lia | reflexivity].
Qed.

(** The page [k + 1] holds the alerts at the positions
    [k * page_size .. (k + 1) * page_size - 1]. *)
Lemma paginate_chunk {A : Type} (all_alerts : list A) (k : nat) (page_size : Z) :
  1 <= page_size ->
  fst (paginate all_alerts (Z.of_nat (S k)) page_size) =
  firstn (Z.to_nat page_size) (skipn (k * Z.to_nat page_size) all_alerts).
Proof.
  intros Hsize. unfold paginate, py_slice. cbn [fst].
  set (len := Z.of_nat (List.length all_alerts)).
  replace (Z.of_nat (S k) - 1) with (Z.of_nat k) by lia.
  assert (Hstart : 0 <= Z.of_nat k * page_size) by nia.
  rewrite !slice_index_nonneg by lia.
  assert (Hk : (k * Z.to_nat page_size)%nat = Z.to_nat (Z.of_nat k * page_size)) by nia.
  rewrite Hk.
  destruct (Z.le_gt_cases len (Z.of_nat k * page_size)) as [Hpast | Hin].
  - rewrite (Z.min_r (Z.of_nat k * page_size) len) by lia.
    rewrite (skipn_all2 all_alerts) by (unfold len in *; lia).
    rewrite (skipn_all2 all_alerts) by (unfold len in *; lia).
    rewrite !firstn_nil. reflexivity.
  - rewrite (Z.min_l (Z.of_nat k * page_size) len) by lia.
    destruct (Z.le_gt_cases (Z.of_nat k * page_size + page_size) len) as [Hfull | Hshort].
    + rewrite Z.min_l by lia. f_equal. lia.
    + rewrite Z.min_r by lia.
      rewrite !firstn_all2; [reflexivity | |];
        rewrite length_skipn; unfold len in *; lia.
Qed.

Lemma chunks_concat {A : Type} (s : nat) :
  (0 < s)%nat ->
  forall (n : nat) (l : list A),
    (List.length l <= n * s)%nat ->
    List.concat (map (fun k => firstn s (skipn (k * s) l)) (seq 0 n)) = l.
Proof.
  intros Hs. induction n as [| n IH]; intros l Hlen.
  - simpl in *. destruct l; [reflexivity | simpl in Hlen; lia].
  - change (seq 0 (S n)) with (0%nat :: seq 1 n).
    rewrite <- seq_shift. cbn [map List.concat]. rewrite map_map.
    rewrite (map_ext _ (fun k => firstn s (skipn (k * s) (skipn s l)))).
    + rewrite IH by (rewrite length_skipn; lia).
      simpl. apply firstn_skipn.
    + intros k. rewrite skipn_skipn. do 2 f_equal. lia.
Qed.

Lemma total_pages_bounds (total_alerts page_size : Z) :
  1 <= page_size -> 0 <= total_alerts ->
  total_alerts <= (total_alerts + page_size - 1) / page_size * page_size <
  total_alerts + page_size.
Proof.
  intros Hsize Htotal.
  pose proof (Z.div_mod (total_alerts + page_size - 1) page_size ltac:(lia)) as Hdm.
  pose proof (Z.mod_pos_bound (total_alerts + page_size - 1) page_size ltac:(lia)) as Hm.
  lia.
Qed.

Lemma has_next_iff (total_alerts page page_size : Z) :
  1 <= page_size -> 0 <= total_alerts ->
  page * page_size < total_alerts <->
  page < (total_alerts + page_size - 1) / page_size.
Proof.
  intros Hsize Htotal.
  pose proof (total_pages_bounds total_alerts page_size Hsize Htotal) as Hb.
  split; intros H; nia.
Qed.

Lemma paginate_length {A : Type} (all_alerts : list A) (page page_size : Z) :
  1 <= page -> 1 <= page_size ->
  Z.of_nat (List.length (fst (paginate all_alerts page page_size))) =
  Z.min page_size
        (Z.max 0 (Z.of_nat (List.length all_alerts) - (page - 1) * page_size)).
Proof.
  intros Hpage Hsize.
  replace page with (Z.of_nat (S (Z.to_nat (page - 1)))) by lia.
  rewrite paginate_chunk by exact Hsize.
  rewrite length_firstn, length_skipn.
  replace (Z.of_nat (S (Z.to_nat (page - 1))) - 1) with (page - 1) by lia.
  nia.
Qed.

(** X17.  The pages [1 .. totalPages], one after the other, are the list
    of all alerts: no alert is left out, repeated or moved. *)
Theorem pages_cover_all_alerts {A : Type} (all_alerts : list A) (page_size : Z) :
  1 <= page_size ->
  List.concat
    (map (fun page => fst (paginate all_alerts page page_size))
         (page_numbers (totalPages (snd (paginate all_alerts 1 page_size))))) =
  all_alerts.
Proof.
  intros Hsize. unfold page_numbers.
  rewrite <- seq_shift, !map_map.
  rewrite (map_ext _ (fun k => firstn (Z.to_nat page_size)
                                      (skipn (k * Z.to_nat page_size) all_alerts)))
    by (intros k; apply paginate_chunk; exact Hsize).
  apply chunks_concat; [lia |].
  cbn [paginate snd totalPages].
  pose proof (total_pages_bounds (Z.of_nat (List.length all_alerts)) page_size
                Hsize ltac:(lia)) as Hb.
  nia.
Qed.

(** X18.  A page holds [page_size] alerts, or what is left of the alerts
    past the pages before it; it holds an alert exactly when its number is
    at most [totalPages]. *)
Theorem page_length {A : Type} (all_alerts : list A) (page page_size : Z) :
  1 <= page -> 1 <= page_size ->
  Z.of_nat (List.length (fst (paginate all_alerts page page_size))) =
  Z.min page_size
        (Z.max 0 (Z.of_nat (List.length all_alerts) - (page - 1) * page_size)) /\
  (fst (paginate all_alerts page page_size) <> [] <->
   page <= totalPages (snd (paginate all_alerts page page_size))).
Proof.
  intros Hpage Hsize.
  pose proof (paginate_length all_alerts page page_size Hpage Hsize) as Hlen.
  split; [exact Hlen |].
  cbn [paginate snd totalPages].
  pose proof (has_next_iff (Z.of_nat (List.length all_alerts)) (page - 1) page_size
                Hsize ltac:(lia)) as Hiff.
  destruct (fst (paginate all_alerts page page_size)) as [| a rest].
  - simpl in Hlen. split; [intros H; exfalso; apply H; reflexivity |].
    intros Hle Hnil. lia.
  - cbn [List.length] in Hlen. split; [| intros _; discriminate].
    intros _. lia.
Qed.

(** X19.  [hasNext] is true exactly when the next page holds an alert,
    that is when the page is before the last one. *)
Theorem has_next_iff_next_page {A : Type} (all_alerts : list A) (page page_size : Z) :
  1 <= page -> 1 <= page_size ->
  (hasNext (snd (paginate all_alerts page page_size)) = true <->
   fst (paginate all_alerts (page + 1) page_size) <> []) /\
  (hasNext (snd (paginate all_alerts page page_size)) = true <->
   page < totalPages (snd (paginate all_alerts page page_size))).
Proof.
  intros Hpage Hsize.
  pose proof (paginate_length all_alerts (page + 1) page_size ltac:(lia) Hsize) as Hlen.
  pose proof (has_next_iff (Z.of_nat (List.length all_alerts)) page page_size
                Hsize ltac:(lia)) as Hiff.
  cbn [paginate snd totalPages hasNext].
  rewrite Z.ltb_lt.
  replace ((page - 1) * page_size + page_size) with (page * page_size) by lia.
  split; [| exact Hiff].
  replace (page + 1 - 1) with page in Hlen by lia.
  destruct (fst (paginate all_alerts (page + 1) page_size)) as [| a rest].
  - simpl in Hlen. split; [lia | intros H; exfalso; apply H; reflexivity].
  - cbn [List.length] in Hlen. split; [intros _; discriminate | lia].
Qed.

(** ** The further properties on the inputs of the repository's tests *)

Lemma single_event_stays_valid :
  t1000 <= long_after /\
  validate_event sample_iso monitor_60_3 t1000 single_event = true /\
  validate_event sample_iso monitor_60_3 long_after single_event = true.
Proof.
  split; [vm_compute; discriminate |].
  split; [reflexivity |].
  apply (validate_event_stays_valid sample_iso monitor_60_3 t1000 long_after
           single_event).
  - vm_compute. discriminate.
  - reflexivity.
Defined.

Lemma scenario_a_alerts_apart :
  exists alert_times,
    terminates_with
      (fun fuel => detect_missed_heartbeats sample_iso fuel monitor_60_3 long_after
                     scenario_a)
      alert_times /\
    apart (timedelta_seconds (3 * 60)) t1000 alert_times.
Proof.
  apply (alerts_allowed_misses_apart sample_iso monitor_60_3 long_after
           (heartbeat "email" "2025-08-04T10:00:00Z")
           [heartbeat "email" "2025-08-04T10:01:00Z";
            heartbeat "email" "2025-08-04T10:02:00Z";
            heartbeat "email" "2025-08-04T10:06:00Z"]).
  - exact monitor_60_3_valid.
  - reflexivity.
Defined.

Lemma scenario_a_history_is_prefix :
  stale sample_iso monitor_60_3 long_after scenario_a /\
  exists history alert_times,
    terminates_with
      (fun fuel => detect_missed_heartbeats sample_iso fuel monitor_60_3 long_after
                     scenario_a)
      history /\
    terminates_with
      (fun fuel => detect_missed_heartbeats sample_iso fuel monitor_60_3
                     (t1000 + timedelta_seconds 400) scenario_a)
      alert_times /\
    (exists more, alert_times = history ++ more) /\
    (stale sample_iso monitor_60_3 (t1000 + timedelta_seconds 400) scenario_a ->
     alert_times = history).
Proof.
  assert (Hstale : stale sample_iso monitor_60_3 long_after scenario_a).
  { vm_compute. intros H. discriminate H. }
  split; [exact Hstale |].
  apply (detect_history_is_prefix sample_iso monitor_60_3 long_after
           (t1000 + timedelta_seconds 400) scenario_a).
  - exact monitor_60_3_valid.
  - reflexivity.
  - exact Hstale.
Defined.

Lemma scenario_a_alerts_on_grid :
  exists alert_times,
    terminates_with
      (fun fuel => detect_missed_heartbeats sample_iso fuel monitor_60_3 long_after
                     scenario_a)
      alert_times /\
    Forall (fun alert_time =>
              exists event k,
                In event scenario_a /\ 1 <= k /\
                alert_time = event_time sample_iso event
                             + timedelta_seconds (k * 60))
           alert_times.
Proof.
  apply (alerts_on_event_grid sample_iso monitor_60_3 long_after scenario_a).
  - exact monitor_60_3_valid.
  - reflexivity.
Defined.




Lemma multiple_services_arrival_order :
  exists out out',
    terminates_with
      (fun fuel => monitor_heartbeats sample_iso fuel monitor_60_3 long_after
                     (PyList multiple_services))
      out /\
    terminates_with
      (fun fuel => monitor_heartbeats sample_iso fuel monitor_60_3 long_after
                     (PyList [heartbeat "email" "2025-08-04T10:06:00Z";
                              heartbeat "email" "2025-08-04T10:00:00Z";
                              heartbeat "api" "2025-08-04T10:00:00Z";
                              heartbeat "api" "2025-08-04T10:01:00Z"]))
      out' /\
    Permutation out out' /\
    map alert_at out = map alert_at out'.
Proof.
  apply (monitor_heartbeats_arrival_order sample_iso monitor_60_3 long_after
           multiple_services
           [heartbeat "email" "2025-08-04T10:06:00Z";
            heartbeat "email" "2025-08-04T10:00:00Z";
            heartbeat "api" "2025-08-04T10:00:00Z";
            heartbeat "api" "2025-08-04T10:01:00Z"]).
  - exact monitor_60_3_valid.
  - apply perm_swap.
Defined.

Lemma five_alerts_pages_cover :
  List.concat
    (map (fun page => fst (paginate [10; 20; 30; 40; 50] page 2))
         (page_numbers (totalPages (snd (paginate [10; 20; 30; 40; 50] 1 2))))) =
  [10; 20; 30; 40; 50].
Proof.
  apply (pages_cover_all_alerts [10; 20; 30; 40; 50] 2). lia.
Defined.

Lemma five_alerts_last_page_length :
  Z.of_nat (List.length (fst (paginate [10; 20; 30; 40; 50] 3 2))) =
  Z.min 2 (Z.max 0 (Z.of_nat (List.length [10; 20; 30; 40; 50]) - (3 - 1) * 2)) /\
  (fst (paginate [10; 20; 30; 40; 50] 3 2) <> [] <->
   3 <= totalPages (snd (paginate [10; 20; 30; 40; 50] 3 2))).
Proof.
  apply (page_length [10; 20; 30; 40; 50] 3 2); lia.
Defined.

Lemma five_alerts_has_next :
  (hasNext (snd (paginate [10; 20; 30; 40; 50] 2 2)) = true <->
   fst (paginate [10; 20; 30; 40; 50] (2 + 1) 2) <> []) /\
  (hasNext (snd (paginate [10; 20; 30; 40; 50] 2 2)) = true <->
   2 < totalPages (snd (paginate [10; 20; 30; 40; 50] 2 2))).
Proof.
  apply (has_next_iff_next_page [10; 20; 30; 40; 50] 2 2); lia.
Defined.

Lemma multiple_services_counts :
  exists response,
    process_heartbeats sample_iso 20 long_after long_after long_after
                       multiple_services 60 3 1 50 = Some (Status200 response) /\
    NoDup (map fst (Response.serviceStats response)) /\
    Response.totalServices response =
      Z.of_nat (List.length (Response.serviceStats response)) /\
    Forall (fun entry => 1 <= ServiceStats.totalEvents (snd entry) /\
                         0 <= ServiceStats.alerts (snd entry))
           (Response.serviceStats response) /\
    0 <= Response.malformedCount response /\
    Response.malformedCount response
    + stats_sum ServiceStats.totalEvents (Response.serviceStats response)
    <= Response.totalEvents response /\
    Response.totalEvents response = Z.of_nat (List.length multiple_services).
Proof.
  eexists. split; [vm_compute; reflexivity |].
  apply (process_heartbeats_counts sample_iso 20 long_after long_after long_after
           multiple_services 60 3 1 50).
  - lia.
  - vm_compute. reflexivity.
Defined.

Lemma multiple_services_alert_counts :
  exists response,
    process_heartbeats sample_iso 20 long_after long_after (long_after + 1)
                       multiple_services 60 3 1 50 = Some (Status200 response) /\
    totalAlerts (Response.pagination response) =
    stats_sum ServiceStats.alerts (Response.serviceStats response).
Proof.
  eexists. split; [vm_compute; reflexivity |].
  apply (process_heartbeats_alert_counts sample_iso 20 long_after (long_after + 1)
           multiple_services 60 3 1 50).
  vm_compute. reflexivity.
Defined.

Open Scope string_scope.

(** ** Text: [strip], the last character *)

Lemma lstrip_app (s t : string) (c : ascii) (t' : string) :
  t = String c t' -> is_space c = false ->
  lstrip (s ++ t) = (lstrip s ++ t)%string.
Proof.
  intros -> Hc. induction s as [| a s IH]; simpl.
  - rewrite Hc. reflexivity.
  - destruct (is_space a); [exact IH | reflexivity].
Qed.

Lemma last_char_app (s t : string) :
  t <> EmptyString -> last_char (s ++ t) = last_char t.
Proof.
  intros Ht. induction s as [| a s IH]; [reflexivity |].
  simpl. destruct (s ++ t)%string eqn:E; [| exact IH].
  destruct s; simpl in E; [congruence | discriminate].
Qed.

Lemma rstrip_last (s : string) (c : ascii) :
  last_char s = Some c -> is_space c = false -> rstrip s = s.
Proof.
  induction s as [| a s IH]; intros Hlast Hc; [discriminate |].
  simpl in *. destruct s as [| b s].
  - injection Hlast as ->. simpl. rewrite Hc. reflexivity.
  - rewrite (IH Hlast Hc). reflexivity.
Qed.




Lemma lstrip_starts (s : string) :
  match lstrip s with
  | EmptyString => True
  | String c _ => is_space c = false
  end.
Proof.
  induction s as [| a s IH]; simpl; [exact I |].
  destruct (is_space a) eqn:Ea; [exact IH | exact Ea].
Qed.

Lemma lstrip_rstrip_lstrip (s : string) : lstrip (rstrip (lstrip s)) = rstrip (lstrip s).
Proof.
  pose proof (lstrip_starts s) as H.
  destruct (lstrip s) as [| c r]; [reflexivity |].
  simpl. destruct (rstrip r); [| simpl; rewrite H; reflexivity].
  rewrite H. simpl. rewrite H. reflexivity.
Qed.


Lemma strip_app (s t : string) (c : ascii) (t' : string) (d : ascii) :
  t = String c t' -> is_space c = false ->
  last_char t = Some d -> is_space d = false ->
  strip (s ++ t) = (lstrip s ++ t)%string.
Proof.
  intros Ht Hc Hlast Hd. unfold strip.
  rewrite (lstrip_app s t c t' Ht Hc).
  apply (rstrip_last _ d); [| exact Hd].
  rewrite last_char_app; [exact Hlast |]. rewrite Ht. discriminate.
Qed.

Lemma drop_last_app (s : string) (c : ascii) :
  drop_last (s ++ String c EmptyString) = s.
Proof.
  induction s as [| a s IH]; [reflexivity |].
  simpl. rewrite IH. destruct (s ++ String c "")%string eqn:E; [| reflexivity].
  destruct s; discriminate.
Qed.

Lemma string_app_assoc (s t u : string) :
  ((s ++ t) ++ u = s ++ (t ++ u))%string.
Proof.
  induction s as [| a s IH]; [reflexivity |]. simpl. rewrite IH. reflexivity.
Qed.

Lemma string_forallb_app (p : ascii -> bool) (s t : string) :
  string_forallb p (s ++ t) = string_forallb p s && string_forallb p t.
Proof.
  induction s as [| a s IH]; [reflexivity |].
  simpl. rewrite IH, andb_assoc. reflexivity.
Qed.

Lemma string_forallb_last (p : ascii -> bool) (s : string) (c : ascii) :
  string_forallb p s = true -> last_char s = Some c -> p c = true.
Proof.
  induction s as [| a s IH]; intros Hall Hlast; [discriminate |].
  simpl in *. apply andb_true_iff in Hall. destruct Hall as [Ha Hs].
  destruct s; [congruence | apply IH; assumption].
Qed.

(** ** The patterns of [parse_timestamp] *)

Lemma takes_re_digits (n : nat) : takes_date_time (re_digits n).
Proof.
  induction n as [| n IH]; intros s rest H; simpl in H.
  - injection H as <-. exists EmptyString. split; reflexivity.
  - destruct s as [| c s]; [discriminate |].
    destruct (is_digit c) eqn:Ec; [| discriminate].
    destruct (IH s rest H) as (taken & -> & Hall).
    exists (String c taken). split; [reflexivity |].
    simpl. unfold date_time_char at 1. rewrite Ec, Hall. reflexivity.
Qed.

Lemma takes_re_char (c : ascii) :
  date_time_char c = true -> takes_date_time (re_char c).
Proof.
  intros Hc s rest H. unfold re_char in H.
  destruct s as [| c' s]; [discriminate |].
  destruct (Ascii.eqb_spec c c') as [<- |]; [| discriminate].
  injection H as <-. exists (String c EmptyString). split; [reflexivity |].
  simpl. rewrite Hc. reflexivity.
Qed.

Lemma takes_re_more_digits (s : string) :
  exists taken, s = (taken ++ re_more_digits s)%string /\
                string_forallb date_time_char taken = true.
Proof.
  induction s as [| c s IH]; simpl.
  - exists EmptyString. split; reflexivity.
  - destruct (is_digit c) eqn:Ec.
    + destruct IH as (taken & Heq & Hall).
      exists (String c taken). split; [simpl; congruence |].
      simpl. unfold date_time_char at 1. rewrite Ec, Hall. reflexivity.
    + exists EmptyString. split; reflexivity.
Qed.

Lemma takes_re_fraction : takes_date_time re_fraction.
Proof.
  intros s rest H. unfold re_fraction in H.
  assert (Hnone : Some s = Some rest ->
                  exists taken, s = (taken ++ rest)%string /\
                                string_forallb date_time_char taken = true).
  { intros Heq. injection Heq as <-. exists EmptyString. split; reflexivity. }
  destruct s as [| c s]; [apply Hnone; exact H |].
  destruct (Ascii.eqb_spec c ".") as [-> |]; [| apply Hnone; exact H].
  destruct (re_digits 1 s) as [rest' |] eqn:Ed; [| apply Hnone; exact H].
  injection H as <-.
  destruct (takes_re_digits 1 s rest' Ed) as (t1 & -> & H1).
  destruct (takes_re_more_digits rest') as (t2 & Heq & H2).
  exists (String "." (t1 ++ t2)). split.
  - simpl. rewrite Heq at 1. rewrite string_app_assoc. reflexivity.
  - simpl. rewrite string_forallb_app, H1, H2. reflexivity.
Qed.

Lemma takes_re_then (m1 m2 : string -> option string) :
  takes_date_time m1 -> takes_date_time m2 -> takes_date_time (re_then m1 m2).
Proof.
  intros H1 H2 s rest H. unfold re_then in H.
  destruct (m1 s) as [mid |] eqn:E1; [| discriminate].
  destruct (H1 s mid E1) as (t1 & -> & Ht1).
  destruct (H2 mid rest H) as (t2 & -> & Ht2).
  exists (t1 ++ t2)%string. split.
  - rewrite string_app_assoc. reflexivity.
  - rewrite string_forallb_app, Ht1, Ht2. reflexivity.
Qed.

Lemma takes_re_date_time : takes_date_time re_date_time.
Proof.
  unfold re_date_time.
  repeat first [ apply takes_re_then
               | apply takes_re_digits
               | apply takes_re_char; reflexivity
               | apply takes_re_fraction ].
Qed.

Lemma string_app_nil (s : string) : (s ++ "")%string = s.
Proof. induction s as [| a s IH]; [reflexivity |]. simpl. rewrite IH. reflexivity. Qed.

Lemma re_end_cases (rest : string) :
  re_end rest = true -> rest = EmptyString \/ rest = String "010" EmptyString.
Proof.
  destruct rest as [| c [| d rest]]; simpl; intros H; [left; reflexivity | | discriminate].
  right. destruct (Ascii.eqb_spec c "010"); [subst; reflexivity | discriminate].
Qed.

(** A text with [+00:00] appended goes to [fromisoformat] as it is. *)
Lemma parse_try_block_explicit_utc (fromisoformat : string -> option (Z * option Z))
    (s : string) :
  parse_try_block fromisoformat (s ++ "+00:00") = to_utc (fromisoformat (s ++ "+00:00")).
Proof.
  unfold parse_try_block.
  assert (Hlast : last_char (s ++ "+00:00") = Some "0"%char)
    by (rewrite last_char_app; [reflexivity | discriminate]).
  assert (HZ : endswith_Z (s ++ "+00:00") = false)
    by (unfold endswith_Z; rewrite Hlast; reflexivity).
  assert (Hnaive : re_match_naive (s ++ "+00:00") = false).
  { unfold re_match_naive.
    destruct (re_date_time (s ++ "+00:00")) as [rest |] eqn:E; [| reflexivity].
    destruct (re_end rest) eqn:Eend; [| reflexivity]. exfalso.
    destruct (takes_re_date_time _ _ E) as (taken & Heq & Hall).
    destruct (re_end_cases rest Eend) as [-> | ->].
    - rewrite string_app_nil in Heq. rewrite <- Heq, string_forallb_app in Hall.
      apply andb_true_iff in Hall. destruct Hall as [_ Hall]. discriminate Hall.
    - rewrite Heq, last_char_app in Hlast; [discriminate Hlast | discriminate]. }
  rewrite HZ, Hnaive. destruct (re_match_offset _); reflexivity.
Qed.

(** X1.  A timestamp that ends in [Z] parses as the same text with
    [+00:00] in place of the [Z]. *)
Theorem parse_timestamp_Z_is_utc (fromisoformat : string -> option (Z * option Z))
    (s : string) :
  parse_timestamp (parse_try_block fromisoformat) (PyStr (s ++ "Z")) =
  parse_timestamp (parse_try_block fromisoformat) (PyStr (s ++ "+00:00")).
Proof.
  unfold parse_timestamp.
  rewrite (strip_app s "Z" "Z" "" "Z") by reflexivity.
  rewrite (strip_app s "+00:00" "+" "00:00" "0") by reflexivity.
  assert (Htruthy : forall t c t', t = String c t' ->
            str_truthy (lstrip s ++ t) = true).
  { intros t c t' ->. destruct (lstrip s); reflexivity. }
  rewrite (Htruthy "Z"%string "Z"%char ""%string eq_refl).
  rewrite (Htruthy "+00:00"%string "+"%char "00:00"%string eq_refl).
  cbn [negb]. rewrite parse_try_block_explicit_utc.
  unfold parse_try_block.
  assert (HZ : endswith_Z (lstrip s ++ "Z") = true).
  { unfold endswith_Z. rewrite last_char_app; [reflexivity | discriminate]. }
  rewrite HZ, drop_last_app. reflexivity.
Qed.

(** X2.  A timestamp without zone (the stripped text matches the pattern
    of a bare date-time) parses as the same text with [+00:00] appended:
    it is read as UTC. *)
Theorem parse_timestamp_naive_is_utc (fromisoformat : string -> option (Z * option Z))
    (s : string) :
  re_match_naive (strip s) = true ->
  parse_timestamp (parse_try_block fromisoformat) (PyStr s) =
  parse_timestamp (parse_try_block fromisoformat) (PyStr (strip s ++ "+00:00")).
Proof.
  intros Hnaive. unfold parse_timestamp.
  rewrite (strip_app (strip s) "+00:00" "+" "00:00" "0") by reflexivity.
  assert (Hl : lstrip (strip s) = strip s) by apply lstrip_rstrip_lstrip.
  rewrite Hl.
  pose proof Hnaive as Hshape. unfold re_match_naive in Hshape.
  destruct (re_date_time (strip s)) as [rest |] eqn:E; [| discriminate].
  destruct (takes_re_date_time _ _ E) as (taken & Heq & Hall).
  assert (Hne : str_truthy (strip s) = true).
  { destruct (strip s); [discriminate E | reflexivity]. }
  assert (Hne' : str_truthy (strip s ++ "+00:00") = true).
  { destruct (strip s); reflexivity. }
  rewrite Hne, Hne'. cbn [negb]. rewrite parse_try_block_explicit_utc.
  unfold parse_try_block.
  assert (HZ : endswith_Z (strip s) = false).
  { unfold endswith_Z. destruct (last_char (strip s)) as [c |] eqn:Elast; [| reflexivity].
    destruct (Ascii.eqb_spec c "Z") as [-> |]; [| reflexivity]. exfalso.
    destruct (re_end_cases rest Hshape) as [-> | ->].
    - rewrite string_app_nil in Heq. rewrite <- Heq in Hall.
      pose proof (string_forallb_last _ _ _ Hall Elast) as Hc. discriminate Hc.
    - rewrite Heq, last_char_app in Elast; [discriminate Elast | discriminate]. }
  assert (Hoff : re_match_offset (strip s) = false).
  { unfold re_match_offset. unfold re_then at 1. rewrite E.
    destruct (re_end_cases rest Hshape) as [-> | ->]; reflexivity. }
  rewrite HZ, Hoff, Hnaive. reflexivity.
Qed.

Lemma parse_timestamp_naive_sample :
  parse_timestamp (parse_try_block sample_fromisoformat)
    (PyStr " 2025-08-04T10:00:00 ") = Some t1000 /\
  parse_timestamp (parse_try_block sample_fromisoformat)
    (PyStr " 2025-08-04T10:00:00 ") =
  parse_timestamp (parse_try_block sample_fromisoformat)
    (PyStr (strip " 2025-08-04T10:00:00 " ++ "+00:00")).
Proof.
  split; [reflexivity |].
  apply (parse_timestamp_naive_is_utc sample_fromisoformat " 2025-08-04T10:00:00 ").
  reflexivity.
Defined.

(** ** Whitespace around the fields of an event *)




Close Scope string_scope.
